(** * License server: the device-binding and revocation state machine

    A shallow embedding of the request handlers of [src/index.js] (the
    typed edition: validate with a license type, generate, summary, list by
    type, delete, revoke, reactivate) and of [src/unnamed/part_000] (the
    edition without license types: validate, generate, summary, list,
    revoke), and the properties of the state machine they implement.

    Modelling choices, all read off the source:
    - the MongoDB collection [License] is the list of its documents, a
      document's position standing for its [_id]; [findOne] returns the
      first document with the given [licenseKey] together with its
      position, [save] on a document that was found writes it back at its
      position, [save] on a new document appends it;
    - a handler is a function from the store to the new store and the
      response ([res.status(..).json(..)]); requests are handled one after
      the other;
    - a field of [req.body] or [req.query] is a string or absent
      ([option string]); JavaScript's truthiness test [!x] rejects the
      absent field and the empty string;
    - [new Date()] is the argument [now] of the handler, a number of
      milliseconds;
    - store operations do not fail, so the [catch] branches (status 500)
      are not reached. *)

From stdpp Require Import base strings list sorting.
From Stdlib Require Import ZArith.

Open Scope string_scope.
Open Scope list_scope.
Open Scope nat_scope.

(** ** Requests and responses *)

(** [!x] on a request field: the field's string when it is truthy. *)
Definition truthy (x : option string) : option string :=
  match x with
  | Some s => if decide (s = "") then None else Some s
  | None => None
  end.

(** [x || d] on a request field. *)
Definition or_default (x : option string) (d : string) : string :=
  match truthy x with
  | Some s => s
  | None => d
  end.

(** [res.status(status).json({ success, message })]. *)
Record Reply := reply { status : nat; success : bool; message : string }.

(** [res.json({ totalLicenses, activeLicenses, revokedLicenses })]. *)
Record Summary := summary
  { totalLicenses : nat; activeLicenses : nat; revokedLicenses : nat }.

Definition missing_fields : Reply := reply 400 false "Missing fields".
Definition invalid_license : Reply := reply 403 false "Invalid license".
Definition type_mismatch : Reply := reply 403 false "License type mismatch".
Definition revoked_multiple_devices : Reply :=
  reply 403 false "License revoked: used on multiple devices.".
Definition validated : Reply := reply 200 true "License validated successfully".
Definition already_exists : Reply := reply 409 false "License already exists".
Definition created : Reply := reply 200 true "License created".
Definition missing_license_key : Reply := reply 400 false "Missing license key".
Definition missing_licenseKey : Reply := reply 400 false "Missing licenseKey".
Definition not_found : Reply := reply 404 false "License not found".
Definition already_revoked : Reply := reply 400 false "License is already revoked".
Definition revoked_ok : Reply := reply 200 true "License revoked successfully".
Definition reactivated : Reply := reply 200 true "License reactivated successfully".
Definition deleted_ok : Reply := reply 200 true "License deleted successfully".

(** ** Dates and the order of [sort({ lastUsed: -1 })]

    [lastUsed] is a date or [null]; MongoDB compares [null] below every
    date, so in the descending order the unset dates come last. *)
Definition date_le (a b : option Z) : Prop :=
  match a, b with
  | None, _ => True
  | Some _, None => False
  | Some x, Some y => (x ≤ y)%Z
  end.

#[global] Instance date_le_dec : RelDecision date_le.
Proof.
  intros [x|] [y|]; simpl; apply _.
Defined.

#[global] Instance date_le_total : Total date_le.
Proof.
  intros [x|] [y|]; simpl; auto. lia.
Qed.

#[global] Instance date_le_trans : Transitive date_le.
Proof.
  intros [x|] [y|] [z|]; simpl; auto; try tauto. lia.
Qed.

(** ** The mongoose model: a collection of documents *)
Module Mongoose.
Section Collection.
Context {D : Type} (licenseKey : D → string) (lastUsed : D → option Z).

(** [License.findOne({ licenseKey })]: the document and its position. *)
Definition findOne (key : string) (db : list D) : option (nat * D) :=
  list_find (λ d, licenseKey d = key) db.

(** [license.save()] on a document obtained from [findOne]. *)
Definition save (doc : nat * D) (db : list D) : list D :=
  <[doc.1 := doc.2]> db.

(** [newLicense.save()] on a document made by [new License(..)]. *)
Definition create (d : D) (db : list D) : list D := db ++ [d].

(** [License.findOneAndDelete({ licenseKey })]. *)
Definition findOneAndDelete (key : string) (db : list D)
  : option D * list D :=
  match findOne key db with
  | Some (i, d) => (Some d, delete i db)
  | None => (None, db)
  end.

(** [License.countDocuments(q)] and [License.find(q)]. *)
Definition countDocuments (q : D → Prop) `{!∀ d, Decision (q d)}
    (db : list D) : nat :=
  length (filter q db).
Definition find (q : D → Prop) `{!∀ d, Decision (q d)}
    (db : list D) : list D :=
  filter q db.

(** [.sort({ lastUsed: -1 })]. *)
Definition lastUsed_desc (a b : D) : Prop :=
  date_le (lastUsed b) (lastUsed a).
#[global] Instance lastUsed_desc_dec : RelDecision lastUsed_desc.
Proof. intros a b. unfold lastUsed_desc. apply _. Defined.
Definition sort_lastUsed_desc (ls : list D) : list D :=
  merge_sort lastUsed_desc ls.

End Collection.
End Mongoose.

(** ** What a request may do to the collection

    The four ways in which a handler leaves the collection: as it was, with
    the document of the key it addresses written back (its key kept, and
    [same] relating the old and the new document), with a new document of
    that key appended when there was none, or with the document of that
    key removed. *)
Module Steps.
Section Step.
Context {D : Type} (licenseKey : D → string) (same : D → D → Prop).

Inductive store_step (target : option string) (db : list D) : list D → Prop :=
  | step_same : store_step target db db
  | step_update key i d d' :
      target = Some key →
      Mongoose.findOne licenseKey key db = Some (i, d) →
      licenseKey d' = key → same d d' →
      store_step target db (Mongoose.save (i, d') db)
  | step_create key d' :
      target = Some key →
      Mongoose.findOne licenseKey key db = None →
      licenseKey d' = key →
      store_step target db (Mongoose.create d' db)
  | step_delete key i d :
      target = Some key →
      Mongoose.findOne licenseKey key db = Some (i, d) →
      store_step target db (delete i db).

End Step.
End Steps.

(** * src/index.js *)
Module Index.

(** [licenseSchema]. [type] is [None] when the document has no type. *)
Record License := mkLicense
  { licenseKey : string;
    type : option string;
    email : string;
    valid : bool;
    deviceId : list string;
    lastUsed : option Z }.

(** Field assignments [license.valid = v], [license.deviceId = d],
    [license.lastUsed = t]. *)
Definition set_valid (v : bool) (l : License) : License :=
  mkLicense (licenseKey l) (type l) (email l) v (deviceId l) (lastUsed l).
Definition set_deviceId (d : list string) (l : License) : License :=
  mkLicense (licenseKey l) (type l) (email l) (valid l) d (lastUsed l).
Definition set_lastUsed (t : option Z) (l : License) : License :=
  mkLicense (licenseKey l) (type l) (email l) (valid l) (deviceId l) t.

(** [new License({ email, licenseKey, type })] with the schema defaults. *)
Definition new_License (email' licenseKey' : string) (type' : option string)
  : License :=
  mkLicense licenseKey' type' email' true [] None.

(** The collection. *)
Abbreviation Store := (list License).
Abbreviation findOne := (Mongoose.findOne licenseKey).
Abbreviation save := (@Mongoose.save License).
Abbreviation create := (@Mongoose.create License).
Abbreviation findOneAndDelete := (Mongoose.findOneAndDelete licenseKey).
Abbreviation countDocuments := (@Mongoose.countDocuments License).
Abbreviation find := (@Mongoose.find License).
Abbreviation sort_lastUsed_desc := (Mongoose.sort_lastUsed_desc lastUsed).

(** [app.post("/validate", ...)].  [Array.isArray(license.deviceId)] holds
    for a document of this schema, so that branch is not taken. *)
Definition validate (now : Z) (query_type body_licenseKey body_deviceId : option string)
    (db : Store) : Store * Reply :=
  let type' := or_default query_type "sender" in
  match truthy body_licenseKey, truthy body_deviceId with
  | Some key, Some dev =>
      match findOne key db with
      | None => (db, invalid_license)
      | Some (id, license) =>
          if negb (valid license) then (db, invalid_license)
          else if negb (bool_decide (type license = Some type'))
          then (db, type_mismatch)
          else
            let alreadyUsed := bool_decide (dev ∈ deviceId license) in
            if negb alreadyUsed && bool_decide (1 ≤ length (deviceId license))
            then (save (id, set_valid false license) db, revoked_multiple_devices)
            else
              let license :=
                if alreadyUsed then license
                else set_deviceId (deviceId license ++ [dev]) license in
              (save (id, set_lastUsed (Some now) license) db, validated)
      end
  | _, _ => (db, missing_fields)
  end.

(** [app.post("/generate", ...)]. *)
Definition generate (body_email body_licenseKey body_type : option string)
    (db : Store) : Store * Reply :=
  match truthy body_email, truthy body_licenseKey with
  | Some email', Some key =>
      match findOne key db with
      | Some existing => (db, already_exists)
      | None => (create (new_License email' key body_type) db, created)
      end
  | _, _ => (db, missing_fields)
  end.

(** [app.get("/licenses/summary", ...)]. *)
Definition licenses_summary (db : Store) : Store * Summary :=
  let totalLicenses := countDocuments (λ _, True) db in
  let activeLicenses := countDocuments (λ l, valid l = true) db in
  let revokedLicenses := countDocuments (λ l, valid l = false) db in
  (db, summary totalLicenses activeLicenses revokedLicenses).

(** [app.get("/licenses/:type", ...)]. *)
Definition licenses_by_type (params_type : string) (db : Store)
  : Store * list License :=
  (db, sort_lastUsed_desc (find (λ l, type l = Some params_type) db)).

(** [app.post("/licenses/delete", ...)]. *)
Definition licenses_delete (body_licenseKey : option string) (db : Store)
  : Store * Reply :=
  match truthy body_licenseKey with
  | None => (db, missing_license_key)
  | Some key =>
      match findOneAndDelete key db with
      | (None, _) => (db, not_found)
      | (Some deleted, db') => (db', deleted_ok)
      end
  end.

(** [app.post("/licenses/revoke", ...)]. *)
Definition licenses_revoke (body_licenseKey : option string) (db : Store)
  : Store * Reply :=
  match truthy body_licenseKey with
  | None => (db, missing_license_key)
  | Some key =>
      match findOne key db with
      | None => (db, not_found)
      | Some (id, license) =>
          if negb (valid license) then (db, already_revoked)
          else (save (id, set_valid false license) db, revoked_ok)
      end
  end.

(** [app.post("/licenses/reactivate", ...)]; [body_resetDevices] is the
    truthiness of [req.body.resetDevices]. *)
Definition licenses_reactivate (body_licenseKey : option string)
    (body_resetDevices : bool) (db : Store) : Store * Reply :=
  match truthy body_licenseKey with
  | None => (db, missing_licenseKey)
  | Some key =>
      match findOne key db with
      | None => (db, not_found)
      | Some (id, license) =>
          let license := set_valid true license in
          let license :=
            if body_resetDevices then set_deviceId [] license else license in
          (save (id, license) db, reactivated)
      end
  end.

(** The routes of the application: one request is one of the handlers
    above, and the server applies the requests to the store in turn.  A
    GET on /licenses/summary is [GetSummary], the route declared first. *)
Inductive Request :=
  | PostValidate (now : Z) (query_type body_licenseKey body_deviceId : option string)
  | PostGenerate (body_email body_licenseKey body_type : option string)
  | GetSummary
  | GetLicenses (params_type : string)
  | PostDelete (body_licenseKey : option string)
  | PostRevoke (body_licenseKey : option string)
  | PostReactivate (body_licenseKey : option string) (body_resetDevices : bool).

Inductive Response :=
  | Json (r : Reply)
  | JsonSummary (s : Summary)
  | JsonLicenses (ls : list License).

Definition handle (r : Request) (db : Store) : Store * Response :=
  match r with
  | PostValidate now t k d => prod_map id Json (validate now t k d db)
  | PostGenerate e k t => prod_map id Json (generate e k t db)
  | GetSummary => prod_map id JsonSummary (licenses_summary db)
  | GetLicenses t => prod_map id JsonLicenses (licenses_by_type t db)
  | PostDelete k => prod_map id Json (licenses_delete k db)
  | PostRevoke k => prod_map id Json (licenses_revoke k db)
  | PostReactivate k c => prod_map id Json (licenses_reactivate k c db)
  end.

(** The store after a sequence of requests. *)
Definition run (rs : list Request) (db : Store) : Store :=
  foldl (λ db r, (handle r db).1) db rs.

(** *** Vocabulary of the properties *)

(** The record of the key, if any, is revoked: the first test of
    [validate] after the lookup. *)
Definition unknown_or_revoked (body_licenseKey : option string) (db : Store)
  : Prop :=
  ∀ key i l, body_licenseKey = Some key →
    findOne key db = Some (i, l) → valid l = false.

(** The type test of [validate]: the record's type is the type asked for,
    which is "sender" when the query has none. *)
Definition type_matches (query_type : option string) (l : License) : Prop :=
  type l = Some (or_default query_type "sender").

(** Requests other than the reactivation and the deletion of [key]. *)
Definition keeps_revoked (key : string) (r : Request) : Prop :=
  match r with
  | PostReactivate k _ | PostDelete k => truthy k ≠ Some key
  | _ => True
  end.

(** A validation from [dev] with the query type [query_type]. *)
Definition revalidate (query_type : option string) (key dev : string)
    (now : Z) : Request :=
  PostValidate now query_type (Some key) (Some dev).

Definition at_most_one_device (l : License) : Prop :=
  length (deviceId l) ≤ 1.

(** Where the bound devices of a record [l'] of the store after the
    request [r] come from: the record has none, or it has those of a
    record of the store before, or [r] is a validation from [dev], a valid
    record of the store before had none and [l'] has [dev] alone. *)
Definition devices_step (r : Request) (db : Store) (l' : License) : Prop :=
  deviceId l' = [] ∨
  (∃ l, l ∈ db ∧ deviceId l' = deviceId l) ∨
  (∃ l now t k dev, l ∈ db ∧ deviceId l = [] ∧ valid l = true ∧
     r = PostValidate now t k (Some dev) ∧ deviceId l' = [dev]).

(** The license key a request addresses, when it has one. *)
Definition target (r : Request) : option string :=
  match r with
  | PostValidate _ _ k _ | PostGenerate _ k _ | PostDelete k | PostRevoke k
  | PostReactivate k _ => truthy k
  | GetSummary | GetLicenses _ => None
  end.

(** The body of a response that is a [{ success, message }] object. *)
Definition reply_of (resp : Response) : option Reply :=
  match resp with
  | Json r => Some r
  | _ => None
  end.

(** The fields that identify a license besides its key. *)
Definition same_identity (l l' : License) : Prop :=
  email l' = email l ∧ type l' = type l.

(** Requests other than the deletion of [key]. *)
Definition keeps_record (key : string) (r : Request) : Prop :=
  match r with
  | PostDelete k => truthy k ≠ Some key
  | _ => True
  end.

End Index.

(** * src/unnamed/part_000 *)
Module Part000.

(** [licenseSchema]: this edition has no [type]. *)
Record License := mkLicense
  { licenseKey : string;
    email : string;
    valid : bool;
    deviceId : list string;
    lastUsed : option Z }.

Definition set_valid (v : bool) (l : License) : License :=
  mkLicense (licenseKey l) (email l) v (deviceId l) (lastUsed l).
Definition set_deviceId (d : list string) (l : License) : License :=
  mkLicense (licenseKey l) (email l) (valid l) d (lastUsed l).
Definition set_lastUsed (t : option Z) (l : License) : License :=
  mkLicense (licenseKey l) (email l) (valid l) (deviceId l) t.

(** [new License({ email, licenseKey })] with the schema defaults. *)
Definition new_License (email' licenseKey' : string) : License :=
  mkLicense licenseKey' email' true [] None.

Abbreviation Store := (list License).
Abbreviation findOne := (Mongoose.findOne licenseKey).
Abbreviation save := (@Mongoose.save License).
Abbreviation create := (@Mongoose.create License).
Abbreviation countDocuments := (@Mongoose.countDocuments License).
Abbreviation find := (@Mongoose.find License).
Abbreviation sort_lastUsed_desc := (Mongoose.sort_lastUsed_desc lastUsed).

(** [app.post("/validate", ...)]. *)
Definition validate (now : Z) (body_licenseKey body_deviceId : option string)
    (db : Store) : Store * Reply :=
  match truthy body_licenseKey, truthy body_deviceId with
  | Some key, Some dev =>
      match findOne key db with
      | None => (db, invalid_license)
      | Some (id, license) =>
          if negb (valid license) then (db, invalid_license)
          else
            let alreadyUsed := bool_decide (dev ∈ deviceId license) in
            if negb alreadyUsed && bool_decide (1 ≤ length (deviceId license))
            then (save (id, set_valid false license) db, revoked_multiple_devices)
            else
              let license :=
                if alreadyUsed then license
                else set_deviceId (deviceId license ++ [dev]) license in
              (save (id, set_lastUsed (Some now) license) db, validated)
      end
  | _, _ => (db, missing_fields)
  end.

(** [app.post("/generate", ...)]. *)
Definition generate (body_email body_licenseKey : option string)
    (db : Store) : Store * Reply :=
  match truthy body_email, truthy body_licenseKey with
  | Some email', Some key =>
      match findOne key db with
      | Some existing => (db, already_exists)
      | None => (create (new_License email' key) db, created)
      end
  | _, _ => (db, missing_fields)
  end.

(** [app.get("/licenses/summary", ...)]. *)
Definition licenses_summary (db : Store) : Store * Summary :=
  let totalLicenses := countDocuments (λ _, True) db in
  let activeLicenses := countDocuments (λ l, valid l = true) db in
  let revokedLicenses := countDocuments (λ l, valid l = false) db in
  (db, summary totalLicenses activeLicenses revokedLicenses).

(** [app.get("/licenses", ...)]. *)
Definition licenses (db : Store) : Store * list License :=
  (db, sort_lastUsed_desc (find (λ _, True) db)).

(** [app.post("/licenses/revoke", ...)]. *)
Definition licenses_revoke (body_licenseKey : option string) (db : Store)
  : Store * Reply :=
  match truthy body_licenseKey with
  | None => (db, missing_license_key)
  | Some key =>
      match findOne key db with
      | None => (db, not_found)
      | Some (id, license) =>
          if negb (valid license) then (db, already_revoked)
          else (save (id, set_valid false license) db, revoked_ok)
      end
  end.

(** The routes of this edition. *)
Inductive Request :=
  | PostValidate (now : Z) (body_licenseKey body_deviceId : option string)
  | PostGenerate (body_email body_licenseKey : option string)
  | GetSummary
  | GetLicenses
  | PostRevoke (body_licenseKey : option string).

Inductive Response :=
  | Json (r : Reply)
  | JsonSummary (s : Summary)
  | JsonLicenses (ls : list License).

Definition handle (r : Request) (db : Store) : Store * Response :=
  match r with
  | PostValidate now k d => prod_map id Json (validate now k d db)
  | PostGenerate e k => prod_map id Json (generate e k db)
  | GetSummary => prod_map id JsonSummary (licenses_summary db)
  | GetLicenses => prod_map id JsonLicenses (licenses db)
  | PostRevoke k => prod_map id Json (licenses_revoke k db)
  end.

Definition run (rs : list Request) (db : Store) : Store :=
  foldl (λ db r, (handle r db).1) db rs.

(** The record of the key, if any, is revoked. *)
Definition unknown_or_revoked (body_licenseKey : option string) (db : Store)
  : Prop :=
  ∀ key i l, body_licenseKey = Some key →
    findOne key db = Some (i, l) → valid l = false.

(** The license key a request addresses, when it has one. *)
Definition target (r : Request) : option string :=
  match r with
  | PostValidate _ k _ | PostGenerate _ k | PostRevoke k => truthy k
  | GetSummary | GetLicenses => None
  end.

Definition reply_of (resp : Response) : option Reply :=
  match resp with
  | Json r => Some r
  | _ => None
  end.

Definition same_identity (l l' : License) : Prop :=
  email l' = email l.

Definition at_most_one_device (l : License) : Prop :=
  length (deviceId l) ≤ 1.

End Part000.


(** * Facts about requests and the collection *)

Lemma truthy_Some x s : truthy x = Some s ↔ x = Some s ∧ s ≠ "".
Proof.
  unfold truthy. destruct x as [t|]; [|split; [done|by intros [? _]]].
  case_decide as Ht; split.
  - done.
  - intros [[= ->] ?]. done.
  - intros [= ->]. done.
  - intros [[= ->] _]. done.
Qed.

Lemma truthy_present s : s ≠ "" → truthy (Some s) = Some s.
Proof. intros. by apply truthy_Some. Qed.

Section CollectionFacts.
Context {D : Type} (licenseKey : D → string).
Implicit Types (db : list D) (d e : D) (key : string).

Local Abbreviation findOne := (Mongoose.findOne licenseKey).
Local Abbreviation save := (@Mongoose.save D).
Local Abbreviation create := (@Mongoose.create D).

Lemma findOne_Some key db i d :
  findOne key db = Some (i, d) → db !! i = Some d ∧ licenseKey d = key.
Proof.
  unfold Mongoose.findOne. rewrite list_find_Some. tauto.
Qed.

(** Writing back the document that was found, with the same key, leaves
    it the one that [findOne] returns. *)
Lemma findOne_save_same key db i d d' :
  findOne key db = Some (i, d) → licenseKey d' = key →
  findOne key (save (i, d') db) = Some (i, d').
Proof.
  unfold Mongoose.findOne, Mongoose.save. intros Hf Hk; simpl.
  apply list_find_Some in Hf as (Hi & _ & Hleast).
  apply list_find_insert_Some. right; left.
  split_and!; eauto using lookup_lt_Some.
Qed.

(** Writing back a document of another key does not change what
    [findOne] returns. *)
Lemma findOne_save_other key key' db i d j e e' :
  findOne key db = Some (i, d) → findOne key' db = Some (j, e) →
  key ≠ key' → licenseKey e' = key' →
  findOne key (save (j, e') db) = Some (i, d).
Proof.
  unfold Mongoose.findOne, Mongoose.save. intros Hf Hg Hne Hk; simpl.
  apply list_find_Some in Hf as (Hi & Hd & Hleast).
  apply list_find_Some in Hg as (Hj & He & _).
  assert (i ≠ j) by (intros ->; congruence).
  apply list_find_Some. rewrite list_lookup_insert_ne by done.
  split_and!; [done..|].
  intros n y [(-> & -> & _)|[_ Hn]]%list_lookup_insert_Some Hlt; [congruence|].
  eauto.
Qed.

(** Deleting a document of another key moves the document of [key] at
    most one position down. *)
Lemma findOne_delete_other key key' db i d j e :
  findOne key db = Some (i, d) → findOne key' db = Some (j, e) →
  key ≠ key' → ∃ i', Mongoose.findOne licenseKey key (delete j db) = Some (i', d).
Proof.
  unfold Mongoose.findOne. intros Hf Hg Hne.
  apply list_find_Some in Hf as (Hi & Hd & Hleast).
  apply list_find_Some in Hg as (Hj & He & _).
  assert (i ≠ j) by (intros ->; congruence).
  destruct (decide (i < j)) as [Hlt|Hge].
  - exists i. apply list_find_Some.
    rewrite list_lookup_delete_lt by done. split_and!; [done..|].
    intros n y Hn Hni. rewrite list_lookup_delete_lt in Hn by lia. eauto.
  - exists (pred i). apply list_find_Some.
    rewrite list_lookup_delete_ge by lia.
    replace (S (pred i)) with i by lia. split_and!; [done..|].
    intros n y Hn Hni. destruct (decide (n < j)).
    + rewrite list_lookup_delete_lt in Hn by done. apply (Hleast n y); [done|lia].
    + rewrite list_lookup_delete_ge in Hn by lia. apply (Hleast (S n) y); [done|lia].
Qed.

Lemma findOne_create key db i d d' :
  findOne key db = Some (i, d) → findOne key (create d' db) = Some (i, d).
Proof. apply list_find_app_l. Qed.

Lemma findOne_create_new key db d' :
  findOne key db = None → licenseKey d' = key →
  findOne key (create d' db) = Some (length db, d').
Proof.
  unfold Mongoose.findOne, Mongoose.create. intros Hf Hk.
  rewrite list_find_app_r by done. simpl.
  rewrite decide_True by done. done.
Qed.

End CollectionFacts.

Section Counting.
Context {D : Type} (valid : D → bool).

Lemma filter_True (db : list D) : filter (λ _, True) db = db.
Proof.
  induction db as [|d db IH]; [done|].
  rewrite filter_cons_True by done. by rewrite IH.
Qed.

Lemma countDocuments_split (db : list D) :
  Mongoose.countDocuments (λ _, True) db
  = Mongoose.countDocuments (λ d, valid d = true) db
    + Mongoose.countDocuments (λ d, valid d = false) db.
Proof.
  unfold Mongoose.countDocuments. rewrite filter_True.
  induction db as [|d db IH]; [done|].
  rewrite !filter_cons. destruct (valid d) eqn:Hv; simpl; lia.
Qed.

End Counting.

Section Sorting.
Context {D : Type} (lastUsed : D → option Z).

#[local] Instance lastUsed_desc_total : Total (Mongoose.lastUsed_desc lastUsed).
Proof. intros a b. unfold Mongoose.lastUsed_desc. apply date_le_total. Qed.

#[local] Instance lastUsed_desc_trans :
  Transitive (Mongoose.lastUsed_desc lastUsed).
Proof.
  intros a b c Hab Hbc. unfold Mongoose.lastUsed_desc in *.
  by transitivity (lastUsed b).
Qed.

(** The sorted list has the same documents, each before all the
    documents used at the same time or earlier, or never. *)
Lemma sort_lastUsed_desc_spec (ls : list D) :
  Mongoose.sort_lastUsed_desc lastUsed ls ≡ₚ ls ∧
  StronglySorted (Mongoose.lastUsed_desc lastUsed)
    (Mongoose.sort_lastUsed_desc lastUsed ls).
Proof.
  split.
  - apply merge_sort_Permutation.
  - apply StronglySorted_merge_sort; apply _.
Qed.

End Sorting.

(** * Properties of src/index.js *)
Import Index.

Lemma unknown_or_revoked_lookup key db :
  match findOne key db with
  | Some (_, l) => valid l = false
  | None => True
  end → unknown_or_revoked (Some key) db.
Proof.
  intros H key' i l [= <-] Hf. by rewrite Hf in H.
Qed.

(** The response and the store of a validation that stops at the lookup. *)
Lemma validate_stops_at_lookup now query_type body_licenseKey body_deviceId db :
  unknown_or_revoked body_licenseKey db →
  validate now query_type body_licenseKey body_deviceId db
  = (db, match truthy body_licenseKey, truthy body_deviceId with
         | Some _, Some _ => invalid_license
         | _, _ => missing_fields
         end).
Proof.
  intros Hrev. unfold validate.
  destruct (truthy body_licenseKey) as [key|] eqn:Hk; [|done].
  destruct (truthy body_deviceId) as [dev|] eqn:Hd; [|done].
  apply truthy_Some in Hk as [-> _].
  destruct (findOne key db) as [[i l]|] eqn:Hf; [|done].
  by rewrite (Hrev key i l eq_refl Hf).
Qed.

(** A revoked record is left as it is by every request that is not its
    reactivation or its deletion; the deletion of another record can move
    it one position down. *)
Lemma revoked_stays_handle r key db i l :
  keeps_revoked key r →
  findOne key db = Some (i, l) → valid l = false →
  ∃ i', findOne key (handle r db).1 = Some (i', l).
Proof.
  intros Hr Hf Hv.
  destruct r as [now t k d|e k t| |t|k|k|k c]; simpl in *; eauto.
  - unfold validate.
    destruct (truthy k) as [key'|]; [|eauto].
    destruct (truthy d) as [dev|]; [|eauto].
    destruct (findOne key' db) as [[j m]|] eqn:Hg; [|eauto].
    destruct (decide (key = key')) as [<-|Hne].
    { assert (m = l) as -> by congruence. rewrite Hv. eauto. }
    destruct (findOne_Some _ _ _ _ _ Hg) as [_ Hm].
    exists i. repeat case_match; simpl; try done;
      by eapply (findOne_save_other licenseKey key key').
  - unfold generate.
    destruct (truthy e) as [email'|]; [|eauto].
    destruct (truthy k) as [key'|]; [|eauto].
    destruct (findOne key' db) as [[j m]|] eqn:Hg; [eauto|].
    exists i. by apply findOne_create.
  - unfold licenses_delete, Mongoose.findOneAndDelete.
    destruct (truthy k) as [key'|]; [|eauto].
    destruct (findOne key' db) as [[j m]|] eqn:Hg; [|eauto]. simpl.
    apply (findOne_delete_other licenseKey key key' db i l j m); congruence.
  - unfold licenses_revoke.
    destruct (truthy k) as [key'|]; [|eauto].
    destruct (findOne key' db) as [[j m]|] eqn:Hg; [|eauto].
    destruct (decide (key = key')) as [<-|Hne].
    { assert (m = l) as -> by congruence. rewrite Hv. eauto. }
    destruct (findOne_Some _ _ _ _ _ Hg) as [_ Hm].
    exists i. case_match; simpl; [done|].
    by eapply (findOne_save_other licenseKey key key').
  - unfold licenses_reactivate.
    destruct (truthy k) as [key'|]; [|eauto].
    destruct (findOne key' db) as [[j m]|] eqn:Hg; [|eauto].
    destruct (findOne_Some _ _ _ _ _ Hg) as [_ Hm].
    exists i. simpl.
    eapply (findOne_save_other licenseKey key key'); try done; [congruence|].
    by destruct c.
Qed.

Lemma revoked_stays_run rs key db i l :
  Forall (keeps_revoked key) rs →
  findOne key db = Some (i, l) → valid l = false →
  ∃ i', findOne key (run rs db) = Some (i', l).
Proof.
  intros Hrs. revert db i.
  induction Hrs as [|r rs Hr _ IH]; intros db i Hf Hv; [by exists i|].
  destruct (revoked_stays_handle r key db i l) as [i' Hf']; try done.
  by apply (IH _ i').
Qed.

(** Every validation of a revoked key fails, whatever requests other than
    its reactivation and its deletion were handled before. *)
Lemma revoked_validate_fails rs key db i l now query_type body_deviceId :
  Forall (keeps_revoked key) rs →
  findOne key db = Some (i, l) → valid l = false →
  let out := validate now query_type (Some key) body_deviceId (run rs db) in
  success out.2 = false ∧ out.1 = run rs db.
Proof.
  intros Hrs Hf Hv out. unfold out.
  destruct (revoked_stays_run rs key db i l) as [i' Hf']; try done.
  rewrite validate_stops_at_lookup.
  - simpl. split; [|done]. by repeat case_match.
  - apply unknown_or_revoked_lookup. by rewrite Hf'.
Qed.

(** The revoking branch of [validate]. *)
Lemma validate_revoking_branch now query_type key dev db i l :
  key ≠ "" → dev ≠ "" →
  findOne key db = Some (i, l) → valid l = true →
  type_matches query_type l →
  deviceId l ≠ [] → dev ∉ deviceId l →
  validate now query_type (Some key) (Some dev) db
  = (save (i, set_valid false l) db, revoked_multiple_devices) ∧
  findOne key (save (i, set_valid false l) db) = Some (i, set_valid false l).
Proof.
  intros Hkey Hdev Hf Hv Ht Hne Hnotin. split.
  - unfold validate. rewrite !truthy_present by done. rewrite Hf, Hv.
    simpl. rewrite bool_decide_eq_true_2 by done. simpl.
    rewrite bool_decide_eq_false_2 by done.
    rewrite bool_decide_eq_true_2; [done|].
    destruct (deviceId l); simpl; [done|lia].
  - apply findOne_save_same with l; [done|].
    by destruct (findOne_Some _ _ _ _ _ Hf).
Qed.

(** The branch of [validate] for a device that is already bound. *)
Lemma validate_bound_branch now query_type key dev db i l :
  key ≠ "" → dev ≠ "" →
  findOne key db = Some (i, l) → valid l = true →
  type_matches query_type l → dev ∈ deviceId l →
  validate now query_type (Some key) (Some dev) db
  = (save (i, set_lastUsed (Some now) l) db, validated) ∧
  findOne key (save (i, set_lastUsed (Some now) l) db)
  = Some (i, set_lastUsed (Some now) l).
Proof.
  intros Hkey Hdev Hf Hv Ht Hin. split.
  - unfold validate. rewrite !truthy_present by done. rewrite Hf, Hv.
    simpl. rewrite bool_decide_eq_true_2 by done. simpl.
    by rewrite bool_decide_eq_true_2 by done.
  - apply findOne_save_same with l; [done|].
    by destruct (findOne_Some _ _ _ _ _ Hf).
Qed.

(** After any number of validations from the bound device the record is
    at its position, valid, of the same type, with the same devices. *)
Lemma revalidate_run query_type key dev nows db i l :
  key ≠ "" → dev ≠ "" →
  findOne key db = Some (i, l) → valid l = true →
  type_matches query_type l → dev ∈ deviceId l →
  ∃ l', findOne key (run (revalidate query_type key dev <$> nows) db)
        = Some (i, l') ∧
    valid l' = true ∧ type l' = type l ∧ deviceId l' = deviceId l.
Proof.
  intros Hkey Hdev. revert db l.
  induction nows as [|now nows IH]; intros db l Hf Hv Ht Hin.
  { exists l. done. }
  destruct (validate_bound_branch now query_type key dev db i l)
    as [Heq Hf']; try done.
  simpl. rewrite Heq. simpl.
  destruct (IH _ _ Hf') as (l' & ? & ? & ? & ?); try done.
  by exists l'.
Qed.

(** C6, as amended. A validation with both fields present that passes the
    type test, for a valid record, from a device that is bound: the
    response is 200 "License validated successfully" and the record is
    written back, at its position, with [lastUsed = now] and nothing else
    changed: the bound devices are the same and the record is still
    valid.  The same holds after any number of earlier validations from
    that device: each one succeeds and sets [lastUsed] to its time. *)
Theorem validate_bound_device now query_type key dev db i l :
  key ≠ "" → dev ≠ "" →
  findOne key db = Some (i, l) → valid l = true →
  type_matches query_type l → dev ∈ deviceId l →
  let out := validate now query_type (Some key) (Some dev) db in
  let l' := set_lastUsed (Some now) l in
  (out.2 = validated ∧
   out.1 = save (i, l') db ∧
   findOne key out.1 = Some (i, l') ∧
   deviceId l' = deviceId l ∧ valid l' = true ∧ lastUsed l' = Some now) ∧
  ∀ nows,
    let db_n := run (revalidate query_type key dev <$> nows) db in
    let out_n := validate now query_type (Some key) (Some dev) db_n in
    out_n.2 = validated ∧
    ∃ l_n, findOne key db_n = Some (i, l_n) ∧
      findOne key out_n.1 = Some (i, set_lastUsed (Some now) l_n) ∧
      deviceId l_n = deviceId l ∧ valid l_n = true.
Proof.
  intros Hkey Hdev Hf Hv Ht Hin out l'. split.
  - destruct (validate_bound_branch now query_type key dev db i l)
      as [Heq Hf']; try done.
    unfold out. rewrite Heq. done.
  - intros nows db_n out_n.
    destruct (revalidate_run query_type key dev nows db i l)
      as (l_n & Hfn & Hvn & Htn & Hdn); try done.
    destruct (validate_bound_branch now query_type key dev db_n i l_n)
      as [Heq Hf']; try done.
    { unfold type_matches in *. congruence. }
    { by rewrite Hdn. }
    unfold out_n. rewrite Heq. simpl. split; [done|]. by exists l_n.
Qed.

Lemma validate_bound_device_witness :
  let l := mkLicense "KEY1" (Some "sender") "a@x.com" true ["dev1"] (Some 5%Z) in
  (validate 9 None (Some "KEY1") (Some "dev1") [l]).1
    = [mkLicense "KEY1" (Some "sender") "a@x.com" true ["dev1"] (Some 9%Z)].
Proof.
  intros l.
  destruct (validate_bound_device 9 None "KEY1" "dev1" [l] 0 l)
    as [(_ & Hdb & _) _].
  - done.
  - done.
  - reflexivity.
  - reflexivity.
  - reflexivity.
  - simpl. by apply list_elem_of_singleton.
  - exact Hdb.
Defined.

(** C6 as stated fails when the type test fails: the record of type
    "receiver" bound to dev1 is valid and dev1 is its bound device, yet a
    validation from dev1 that names no type gets 403 "License type
    mismatch" and [lastUsed] keeps its old value. *)
Lemma bound_device_type_mismatch :
  let l := mkLicense "KEY1" (Some "receiver") "a@x.com" true ["dev1"] (Some 5%Z) in
  let db := run [PostGenerate (Some "a@x.com") (Some "KEY1") (Some "receiver");
                 PostValidate 5 (Some "receiver") (Some "KEY1") (Some "dev1")] [] in
  db = [l] ∧ valid l = true ∧ ("dev1" ∈ deviceId l) ∧
  validate 9 None (Some "KEY1") (Some "dev1") db = (db, type_mismatch) ∧
  success type_mismatch = false ∧ lastUsed l ≠ Some 9%Z.
Proof.
  split_and!; try reflexivity; [|done].
  by apply list_elem_of_singleton.
Qed.

(** C4, as amended. The response of a validation is 403 "License type
    mismatch" exactly when both fields are present, the key has a valid
    record, and the record's type is not the type asked for: the query's
    [type] when it is supplied (and not empty), "sender" when it is not.
    The type test is never skipped, and the store is unchanged by a
    mismatch. *)
Theorem validate_type_mismatch_iff now query_type body_licenseKey body_deviceId db :
  let out := validate now query_type body_licenseKey body_deviceId db in
  (out.2 = type_mismatch ↔
     ∃ key dev i l,
       truthy body_licenseKey = Some key ∧ truthy body_deviceId = Some dev ∧
       findOne key db = Some (i, l) ∧ valid l = true ∧
       type l ≠ Some (or_default query_type "sender")) ∧
  (out.2 = type_mismatch → out.1 = db).
Proof.
  unfold validate.
  destruct (truthy body_licenseKey) as [key|];
    [|split; [split; [done|by intros (?&?&?&?&?&_)]|done]].
  destruct (truthy body_deviceId) as [dev|];
    [|split; [split; [done|by intros (?&?&?&?&_&?&_)]|done]].
  destruct (findOne key db) as [[i l]|] eqn:Hf;
    [|split; [split; [done|intros (?&?&?&?&[= <-]&_&?&_); congruence]|done]].
  destruct (valid l) eqn:Hv; simpl;
    [|split; [split; [done|intros (?&?&?&?&[= <-]&_&?&?&_); congruence]|done]].
  case_bool_decide as Ht; simpl.
  - split; [split|].
    + repeat case_match; done.
    + intros (?&?&?&?&[= <-]&_&?&_&?). congruence.
    + repeat case_match; done.
  - split; [split|]; [|done..].
    intros _. by exists key, dev, i, l.
Qed.

(** C4 as stated fails when no type is supplied: the test is made against
    "sender", so a valid record of type "receiver", and a valid record
    issued without a type, both get 403 "License type mismatch". *)
Lemma validate_without_type_mismatch :
  let db := run [PostGenerate (Some "a@x.com") (Some "KEY1") (Some "receiver");
                 PostGenerate (Some "b@x.com") (Some "KEY2") None] [] in
  db = [mkLicense "KEY1" (Some "receiver") "a@x.com" true [] None;
        mkLicense "KEY2" None "b@x.com" true [] None] ∧
  validate 9 None (Some "KEY1") (Some "dev1") db = (db, type_mismatch) ∧
  validate 9 None (Some "KEY2") (Some "dev1") db = (db, type_mismatch).
Proof. split_and!; reflexivity. Qed.

(** C7. Revocation of a key that is present: with no record the response
    is 404 "License not found" and the store is unchanged; with a valid
    record the response is 200 "License revoked successfully" and the
    record is written back with [valid = false]; with a record that is
    already revoked the response is the error 400 "License is already
    revoked" and the store is unchanged.  So the second of two revocations
    in a row fails and leaves the record revoked. *)
Theorem revoke_spec key db :
  key ≠ "" →
  let out := licenses_revoke (Some key) db in
  match findOne key db with
  | None => out = (db, not_found)
  | Some (i, l) =>
      if valid l then
        out = (save (i, set_valid false l) db, revoked_ok) ∧
        findOne key out.1 = Some (i, set_valid false l) ∧
        valid (set_valid false l) = false ∧
        licenses_revoke (Some key) out.1 = (out.1, already_revoked)
      else out = (db, already_revoked)
  end ∧
  success revoked_ok = true ∧ success already_revoked = false ∧
  success not_found = false ∧ already_revoked ≠ not_found.
Proof.
  intros Hkey out. split; [|done].
  unfold out, licenses_revoke. rewrite truthy_present by done.
  destruct (findOne key db) as [[i l]|] eqn:Hf; [|done].
  destruct (valid l) eqn:Hv; [|done]. simpl.
  assert (findOne key (save (i, set_valid false l) db)
          = Some (i, set_valid false l)) as Hf'.
  { apply findOne_save_same with l; [done|].
    by destruct (findOne_Some _ _ _ _ _ Hf). }
  by rewrite Hf'.
Qed.

Lemma revoke_spec_witness :
  let l := mkLicense "KEY1" (Some "sender") "a@x.com" true ["dev1"] (Some 5%Z) in
  licenses_revoke (Some "KEY1") [l] = ([set_valid false l], revoked_ok) ∧
  licenses_revoke (Some "KEY1") [set_valid false l]
    = ([set_valid false l], already_revoked).
Proof.
  intros l.
  destruct (revoke_spec "KEY1" [l]) as [(H1 & _ & _ & H2) _]; [done|].
  split; [exact H1|exact H2].
Defined.

(** C8. Issuing a license: when the email or the license key is missing
    the response is 400 "Missing fields"; when both are present and the
    key has a record the response is 409 "License already exists"; in both
    cases the store, and so every field of the record already there, is
    unchanged.  Otherwise the response is 200 "License created" and a new
    record with the given key, email and type is added, valid, with no
    bound device and no [lastUsed]; the records already there keep their
    place. *)
Theorem generate_spec body_email body_licenseKey body_type db :
  let out := generate body_email body_licenseKey body_type db in
  (truthy body_email = None ∨ truthy body_licenseKey = None →
   out = (db, missing_fields)) ∧
  (∀ key, is_Some (truthy body_email) → truthy body_licenseKey = Some key →
     is_Some (findOne key db) → out = (db, already_exists)) ∧
  (∀ email' key, truthy body_email = Some email' →
     truthy body_licenseKey = Some key → findOne key db = None →
     let l := mkLicense key body_type email' true [] None in
     out = (create l db, created) ∧
     findOne key out.1 = Some (length db, l) ∧
     valid l = true ∧ deviceId l = []) ∧
  success missing_fields = false ∧ success already_exists = false.
Proof.
  intros out. unfold out, generate. clear out. split_and!; [| | |done..].
  - intros [H|H]; rewrite H; [done|]. by destruct (truthy body_email).
  - intros key [email' He] Hk [[i l] Hf]. by rewrite He, Hk, Hf.
  - intros email' key He Hk Hf. rewrite He, Hk, Hf. split_and!; try done.
    by apply findOne_create_new.
Qed.

Lemma generate_spec_witness :
  let l := mkLicense "KEY1" None "a@x.com" true [] None in
  generate (Some "a@x.com") (Some "KEY1") None [] = ([l], created) ∧
  generate (Some "b@x.com") (Some "KEY1") (Some "sender") [l]
    = ([l], already_exists) ∧
  generate None (Some "KEY1") None [l] = ([l], missing_fields).
Proof.
  intros l. split_and!.
  - apply (generate_spec (Some "a@x.com") (Some "KEY1") None []);
      reflexivity.
  - apply (generate_spec (Some "b@x.com") (Some "KEY1") (Some "sender") [l])
      with "KEY1"; [by eexists|reflexivity|by eexists].
  - apply (generate_spec None (Some "KEY1") None [l]). by left.
Defined.

(** A validation that passes the type test, for a valid record with no
    bound device, binds the device and succeeds. *)
Lemma validate_binds_first_device now query_type key dev db i l :
  key ≠ "" → dev ≠ "" →
  findOne key db = Some (i, l) → valid l = true →
  type_matches query_type l → deviceId l = [] →
  validate now query_type (Some key) (Some dev) db
  = (save (i, set_lastUsed (Some now) (set_deviceId [dev] l)) db, validated).
Proof.
  intros Hkey Hdev Hf Hv Ht Hnil.
  unfold validate. rewrite !truthy_present by done. rewrite Hf, Hv.
  simpl. rewrite bool_decide_eq_true_2 by done. simpl.
  rewrite Hnil. done.
Qed.

(** C5, as amended. Reactivation of a key that is present: with no record
    the response is 404 "License not found" and the store is unchanged;
    with a record, valid or not, the response is 200 "License reactivated
    successfully" and the record is written back with [valid = true], and
    with no bound device when [resetDevices] is set, the same bound devices
    otherwise.  After a reactivation with [resetDevices], a validation
    from any device that passes the type test succeeds and binds that
    device. *)
Theorem reactivate_spec key body_resetDevices db :
  key ≠ "" →
  let out := licenses_reactivate (Some key) body_resetDevices db in
  match findOne key db with
  | None => out = (db, not_found)
  | Some (i, l) =>
      ∃ l', out = (save (i, l') db, reactivated) ∧
        findOne key out.1 = Some (i, l') ∧
        valid l' = true ∧
        deviceId l' = (if body_resetDevices then [] else deviceId l) ∧
        licenseKey l' = licenseKey l ∧ type l' = type l ∧
        email l' = email l ∧ lastUsed l' = lastUsed l ∧
        (body_resetDevices = true →
         ∀ now query_type dev, dev ≠ "" → type_matches query_type l →
           let out' := validate now query_type (Some key) (Some dev) out.1 in
           out'.2 = validated ∧
           findOne key out'.1
           = Some (i, set_lastUsed (Some now) (set_deviceId [dev] l')))
  end ∧
  success reactivated = true ∧ success not_found = false.
Proof.
  intros Hkey out. split; [|done].
  unfold out, licenses_reactivate. rewrite truthy_present by done. clear out.
  destruct (findOne key db) as [[i l]|] eqn:Hf; [|done].
  destruct (findOne_Some _ _ _ _ _ Hf) as [_ Hl].
  set (l' := if body_resetDevices then set_deviceId [] (set_valid true l)
             else set_valid true l).
  assert (licenseKey l' = key) as Hl' by (unfold l'; by destruct body_resetDevices).
  assert (findOne key (save (i, l') db) = Some (i, l')) as Hf'
    by by apply findOne_save_same with l.
  exists l'. simpl. split_and!; try done; try (unfold l'; by destruct body_resetDevices).
  intros Hreset now query_type dev Hdev Ht.
  rewrite (validate_binds_first_device now query_type key dev _ i l');
    try done; try (unfold l'; by rewrite Hreset).
  simpl. split; [done|]. by apply findOne_save_same with l'.
Qed.

Lemma reactivate_spec_witness :
  let l := mkLicense "KEY1" (Some "sender") "a@x.com" false ["dev1"] (Some 5%Z) in
  let l' := mkLicense "KEY1" (Some "sender") "a@x.com" true [] (Some 5%Z) in
  licenses_reactivate (Some "KEY1") true [l] = ([l'], reactivated) ∧
  (validate 9 None (Some "KEY1") (Some "dev2") [l']).2 = validated.
Proof.
  intros l l'.
  destruct (reactivate_spec "KEY1" true [l]) as [(l'' & H1 & _ & H2) _];
    [done|].
  split; [reflexivity|].
  destruct H2 as (_ & _ & _ & _ & _ & _ & H2).
  apply (H2 eq_refl 9%Z None "dev2"); [done|reflexivity].
Defined.

(** C5 as stated fails when the type test fails: a license of type
    "receiver", bound to dev1 and revoked by a validation from dev2, is
    reactivated with [resetDevices]; it is valid with no bound device, and
    a validation from the new device dev3 that names no type gets 403
    "License type mismatch". *)
Lemma reactivate_then_validate_type_mismatch :
  let db := run [PostGenerate (Some "a@x.com") (Some "KEY1") (Some "receiver");
                 PostValidate 5 (Some "receiver") (Some "KEY1") (Some "dev1");
                 PostValidate 6 (Some "receiver") (Some "KEY1") (Some "dev2")] [] in
  let out := licenses_reactivate (Some "KEY1") true db in
  db = [mkLicense "KEY1" (Some "receiver") "a@x.com" false ["dev1"] (Some 5%Z)] ∧
  out = ([mkLicense "KEY1" (Some "receiver") "a@x.com" true [] (Some 5%Z)],
         reactivated) ∧
  validate 9 None (Some "KEY1") (Some "dev3") out.1 = (out.1, type_mismatch).
Proof. split_and!; reflexivity. Qed.

(** ** The one-device invariant *)

Lemma devices_step_old r db : Forall (devices_step r db) db.
Proof. apply Forall_forall. intros l Hl. right; left. by exists l. Qed.

Lemma handle_devices_step r db : Forall (devices_step r db) (handle r db).1.
Proof.
  pose proof (devices_step_old r db) as Hold.
  destruct r as [now t k d|e k t| |t|k|k|k c]; simpl; try done.
  - unfold validate.
    destruct (truthy k) as [key|]; [|done].
    destruct (truthy d) as [dev|] eqn:Hd; [|done].
    apply truthy_Some in Hd as [-> _].
    destruct (findOne key db) as [[i l]|] eqn:Hf; [|done].
    destruct (findOne_Some _ _ _ _ _ Hf) as [Hi%list_elem_of_lookup_2 _].
    destruct (valid l) eqn:Hv; [|done]. simpl.
    case_bool_decide; [|done]. simpl.
    case_bool_decide as Hin; simpl.
    { apply Forall_insert; [done|]. right; left. by exists l. }
    case_bool_decide as Hlen; simpl.
    { apply Forall_insert; [done|]. right; left. by exists l. }
    apply Forall_insert; [done|]. right; right.
    assert (deviceId l = []) as Hnil.
    { destruct (deviceId l); [done|]. simpl in Hlen. lia. }
    exists l, now, t, k, dev. simpl. by rewrite Hnil.
  - unfold generate.
    destruct (truthy e) as [email'|]; [|done].
    destruct (truthy k) as [key|]; [|done].
    destruct (findOne key db); [done|]. simpl.
    apply Forall_app. split; [done|]. constructor; [by left|done].
  - unfold licenses_delete, Mongoose.findOneAndDelete.
    destruct (truthy k) as [key|]; [|done].
    destruct (findOne key db) as [[i l]|]; [|done]. simpl.
    by apply Forall_delete.
  - unfold licenses_revoke.
    destruct (truthy k) as [key|]; [|done].
    destruct (findOne key db) as [[i l]|] eqn:Hf; [|done].
    destruct (findOne_Some _ _ _ _ _ Hf) as [Hi%list_elem_of_lookup_2 _].
    destruct (valid l); [|done]. simpl.
    apply Forall_insert; [done|]. right; left. by exists l.
  - unfold licenses_reactivate.
    destruct (truthy k) as [key|]; [|done].
    destruct (findOne key db) as [[i l]|] eqn:Hf; [|done].
    destruct (findOne_Some _ _ _ _ _ Hf) as [Hi%list_elem_of_lookup_2 _].
    simpl. apply Forall_insert; [done|].
    destruct c; [by left|]. right; left. by exists l.
Qed.

Lemma handle_at_most_one r db :
  Forall at_most_one_device db → Forall at_most_one_device (handle r db).1.
Proof.
  intros Hdb. eapply Forall_impl; [apply handle_devices_step|].
  rewrite Forall_forall in Hdb. unfold at_most_one_device.
  intros l' [->|[(l & Hl & ->)|(l & now & t & k & dev & _ & _ & _ & _ & ->)]];
    simpl; [lia|by apply Hdb|lia].
Qed.

Lemma run_at_most_one rs db :
  Forall at_most_one_device db → Forall at_most_one_device (run rs db).
Proof.
  revert db. induction rs as [|r rs IH]; intros db Hdb; [done|].
  simpl. by apply IH, handle_at_most_one.
Qed.

(** C3. In every store reached from the empty one by a sequence of
    requests (issue, validate, summary, list, delete, revoke, reactivate),
    each valid record has at most one bound device.  It follows from how
    each request treats the bound devices of each record: a record of the
    new store has no device, or the devices of a record of the old store,
    or the single device of the validation that found a valid record with
    none; and a bound of one device on all records of a store holds again
    after any request. *)
Theorem bound_devices_invariant :
  (∀ rs, Forall (λ l, valid l = true → length (deviceId l) ≤ 1) (run rs [])) ∧
  (∀ r db, Forall (devices_step r db) (handle r db).1) ∧
  (∀ r db, Forall at_most_one_device db →
           Forall at_most_one_device (handle r db).1).
Proof.
  split_and!.
  - intros rs. eapply Forall_impl; [apply (run_at_most_one rs []); constructor|].
    by intros l Hl _.
  - apply handle_devices_step.
  - apply handle_at_most_one.
Qed.

Lemma bound_devices_invariant_witness :
  Forall at_most_one_device
    (handle (PostValidate 5 None (Some "KEY1") (Some "dev1"))
       [mkLicense "KEY1" (Some "sender") "a@x.com" true [] None]).1.
Proof.
  apply bound_devices_invariant.
  constructor; [|constructor]. unfold at_most_one_device. simpl. lia.
Defined.


(** The bound on the devices of revoked records is needed: on a store that
    no sequence of requests reaches, with a revoked record bound to two
    devices, a reactivation that keeps the devices gives a valid record
    with two devices. *)
Remark reactivate_keeps_devices :
  let l := mkLicense "KEY1" (Some "sender") "a@x.com" false ["dev1"; "dev2"] None in
  (licenses_reactivate (Some "KEY1") false [l]).1
  = [mkLicense "KEY1" (Some "sender") "a@x.com" true ["dev1"; "dev2"] None].
Proof. reflexivity. Qed.

(** * Properties of src/unnamed/part_000 *)
Module Part000Facts.
Import Part000.

Lemma legacy_unknown_or_revoked_lookup key db :
  match findOne key db with
  | Some (_, l) => valid l = false
  | None => True
  end → unknown_or_revoked (Some key) db.
Proof.
  intros H key' i l [= <-] Hf. by rewrite Hf in H.
Qed.

(** As in index.js: a validation of an unknown or revoked key fails and
    leaves the store as it was. *)
Lemma legacy_validate_stops_at_lookup now body_licenseKey body_deviceId db :
  unknown_or_revoked body_licenseKey db →
  validate now body_licenseKey body_deviceId db
  = (db, match truthy body_licenseKey, truthy body_deviceId with
         | Some _, Some _ => invalid_license
         | _, _ => missing_fields
         end).
Proof.
  intros Hrev. unfold validate.
  destruct (truthy body_licenseKey) as [key|] eqn:Hk; [|done].
  destruct (truthy body_deviceId) as [dev|] eqn:Hd; [|done].
  apply truthy_Some in Hk as [-> _].
  destruct (findOne key db) as [[i l]|] eqn:Hf; [|done].
  by rewrite (Hrev key i l eq_refl Hf).
Qed.

(** This edition has no reactivation and no deletion: a revoked record is
    left as it is by every request. *)
Lemma legacy_revoked_stays_handle r key db i l :
  findOne key db = Some (i, l) → valid l = false →
  findOne key (handle r db).1 = Some (i, l).
Proof.
  intros Hf Hv.
  destruct r as [now k d|e k| | |k]; simpl in *; try done.
  - unfold validate.
    destruct (truthy k) as [key'|]; [|done].
    destruct (truthy d) as [dev|]; [|done].
    destruct (findOne key' db) as [[j m]|] eqn:Hg; [|done].
    destruct (decide (key = key')) as [<-|Hne].
    { assert (m = l) as -> by congruence. by rewrite Hv. }
    destruct (findOne_Some _ _ _ _ _ Hg) as [_ Hm].
    repeat case_match; simpl; try done;
      by eapply (findOne_save_other licenseKey key key').
  - unfold generate.
    destruct (truthy e) as [email'|]; [|done].
    destruct (truthy k) as [key'|]; [|done].
    destruct (findOne key' db) as [[j m]|] eqn:Hg; [done|].
    by apply findOne_create.
  - unfold licenses_revoke.
    destruct (truthy k) as [key'|]; [|done].
    destruct (findOne key' db) as [[j m]|] eqn:Hg; [|done].
    destruct (decide (key = key')) as [<-|Hne].
    { assert (m = l) as -> by congruence. by rewrite Hv. }
    destruct (findOne_Some _ _ _ _ _ Hg) as [_ Hm].
    case_match; simpl; [done|].
    by eapply (findOne_save_other licenseKey key key').
Qed.

Lemma legacy_revoked_stays_run rs key db i l :
  findOne key db = Some (i, l) → valid l = false →
  findOne key (run rs db) = Some (i, l).
Proof.
  revert db. induction rs as [|r rs IH]; intros db Hf Hv; [done|].
  apply IH; [|done]. by apply legacy_revoked_stays_handle.
Qed.

Lemma legacy_revoked_validate_fails rs key db i l now body_deviceId :
  findOne key db = Some (i, l) → valid l = false →
  let out := validate now (Some key) body_deviceId (run rs db) in
  success out.2 = false ∧ out.1 = run rs db.
Proof.
  intros Hf Hv out. unfold out.
  rewrite legacy_validate_stops_at_lookup.
  - simpl. split; [|done]. by repeat case_match.
  - apply legacy_unknown_or_revoked_lookup.
    by rewrite (legacy_revoked_stays_run rs key _ i l).
Qed.

(** The revoking branch of [validate]; in this edition there is no type
    test before it. *)
Lemma legacy_validate_revoking_branch now key dev db i l :
  key ≠ "" → dev ≠ "" →
  findOne key db = Some (i, l) → valid l = true →
  deviceId l ≠ [] → dev ∉ deviceId l →
  validate now (Some key) (Some dev) db
  = (save (i, set_valid false l) db, revoked_multiple_devices) ∧
  findOne key (save (i, set_valid false l) db) = Some (i, set_valid false l).
Proof.
  intros Hkey Hdev Hf Hv Hne Hnotin. split.
  - unfold validate. rewrite !truthy_present by done. rewrite Hf, Hv.
    simpl. rewrite bool_decide_eq_false_2 by done.
    rewrite bool_decide_eq_true_2; [done|].
    destruct (deviceId l); simpl; [done|lia].
  - apply findOne_save_same with l; [done|].
    by destruct (findOne_Some _ _ _ _ _ Hf).
Qed.

(** In this edition a valid record is validated from its bound device
    whatever its history: [lastUsed] is set and nothing else changes. *)
Lemma legacy_bound_device_validates now key dev db i l :
  key ≠ "" → dev ≠ "" →
  findOne key db = Some (i, l) → valid l = true → dev ∈ deviceId l →
  validate now (Some key) (Some dev) db
  = (save (i, set_lastUsed (Some now) l) db, validated).
Proof.
  intros Hkey Hdev Hf Hv Hin.
  unfold validate. rewrite !truthy_present by done. rewrite Hf, Hv.
  simpl. by rewrite bool_decide_eq_true_2 by done.
Qed.

End Part000Facts.

(** * Validation of unknown, revoked and shared licenses, in both editions *)

(** C2. A validation whose license key has no record, or whose record has
    [valid = false], fails and leaves the store as it was: nothing is
    created, changed or deleted, so validation never sets a revoked record
    back to valid.  With both fields present the failure is the response
    403 "Invalid license".  This holds in index.js and in part_000. *)
Theorem validate_unknown_or_revoked now body_licenseKey body_deviceId :
  (∀ query_type db,
     Index.unknown_or_revoked body_licenseKey db →
     let out := Index.validate now query_type body_licenseKey body_deviceId db in
     out.1 = db ∧ success out.2 = false ∧
     (is_Some (truthy body_licenseKey) → is_Some (truthy body_deviceId) →
      out.2 = invalid_license)) ∧
  (∀ db,
     Part000.unknown_or_revoked body_licenseKey db →
     let out := Part000.validate now body_licenseKey body_deviceId db in
     out.1 = db ∧ success out.2 = false ∧
     (is_Some (truthy body_licenseKey) → is_Some (truthy body_deviceId) →
      out.2 = invalid_license)).
Proof.
  split.
  - intros query_type db Hrev out. unfold out.
    rewrite validate_stops_at_lookup by done. simpl.
    split_and!; [done| |].
    + by repeat case_match.
    + by intros [key ->] [dev ->].
  - intros db Hrev out. unfold out.
    rewrite Part000Facts.legacy_validate_stops_at_lookup by done. simpl.
    split_and!; [done| |].
    + by repeat case_match.
    + by intros [key ->] [dev ->].
Qed.

Lemma validate_unknown_or_revoked_witness :
  let db := [Index.mkLicense "KEY1" (Some "sender") "a@x.com" false ["dev1"] (Some 5%Z)] in
  let db0 := [Part000.mkLicense "KEY1" "a@x.com" false ["dev1"] (Some 5%Z)] in
  (Index.validate 9 None (Some "KEY1") (Some "dev1") db).1 = db ∧
  (Part000.validate 9 (Some "KEY1") (Some "dev1") db0).1 = db0.
Proof.
  split.
  - apply (proj1 (validate_unknown_or_revoked 9 (Some "KEY1") (Some "dev1"))).
    apply unknown_or_revoked_lookup. reflexivity.
  - apply (proj2 (validate_unknown_or_revoked 9 (Some "KEY1") (Some "dev1"))).
    apply Part000Facts.legacy_unknown_or_revoked_lookup. reflexivity.
Defined.

(** C1, as amended. A validation with both fields present, for a valid
    record that has a bound device, from a device that is not bound, and,
    in index.js, that passes the type test: the response is 403 "License
    revoked: used on multiple devices.", the record is written back with
    [valid = false] and otherwise unchanged, and from then on every
    validation of that key fails, from the bound device too, whatever
    requests other than the reactivation and the deletion of the key are
    handled in between (part_000 has neither). *)
Theorem validate_other_device_revokes now key dev :
  key ≠ "" → dev ≠ "" →
  (∀ query_type db i l,
     Index.findOne key db = Some (i, l) → Index.valid l = true →
     Index.type_matches query_type l →
     Index.deviceId l ≠ [] → dev ∉ Index.deviceId l →
     let out := Index.validate now query_type (Some key) (Some dev) db in
     out.2 = revoked_multiple_devices ∧
     out.1 = Index.save (i, Index.set_valid false l) db ∧
     Index.findOne key out.1 = Some (i, Index.set_valid false l) ∧
     ∀ rs, Forall (Index.keeps_revoked key) rs →
       ∀ now' query_type' body_deviceId',
         let out' := Index.validate now' query_type' (Some key) body_deviceId'
                       (Index.run rs out.1) in
         success out'.2 = false ∧ out'.1 = Index.run rs out.1) ∧
  (∀ db i l,
     Part000.findOne key db = Some (i, l) → Part000.valid l = true →
     Part000.deviceId l ≠ [] → dev ∉ Part000.deviceId l →
     let out := Part000.validate now (Some key) (Some dev) db in
     out.2 = revoked_multiple_devices ∧
     out.1 = Part000.save (i, Part000.set_valid false l) db ∧
     Part000.findOne key out.1 = Some (i, Part000.set_valid false l) ∧
     ∀ rs now' body_deviceId',
       let out' := Part000.validate now' (Some key) body_deviceId'
                     (Part000.run rs out.1) in
       success out'.2 = false ∧ out'.1 = Part000.run rs out.1).
Proof.
  intros Hkey Hdev. split.
  - intros query_type db i l Hf Hv Ht Hne Hnotin out. unfold out.
    destruct (validate_revoking_branch now query_type key dev db i l)
      as [-> Hf']; try done.
    simpl. split_and!; [done..|].
    intros rs Hrs now' query_type' body_deviceId'.
    by apply (revoked_validate_fails rs key _ i (Index.set_valid false l)).
  - intros db i l Hf Hv Hne Hnotin out. unfold out.
    destruct (Part000Facts.legacy_validate_revoking_branch now key dev db i l)
      as [-> Hf']; try done.
    simpl. split_and!; [done..|].
    intros rs now' body_deviceId'.
    by apply (Part000Facts.legacy_revoked_validate_fails rs key _ i
                (Part000.set_valid false l)).
Qed.

Lemma validate_other_device_revokes_witness :
  let l := Index.mkLicense "KEY1" (Some "sender") "a@x.com" true ["dev1"] (Some 5%Z) in
  (Index.validate 9 None (Some "KEY1") (Some "dev2") [l]).1
    = [Index.mkLicense "KEY1" (Some "sender") "a@x.com" false ["dev1"] (Some 5%Z)] ∧
  success (Index.validate 11 None (Some "KEY1") (Some "dev1")
             (Index.run [] (Index.validate 9 None (Some "KEY1") (Some "dev2") [l]).1)).2
    = false.
Proof.
  intros l.
  destruct (validate_other_device_revokes 9 "KEY1" "dev2") as [Hidx _].
  - done.
  - done.
  - destruct (Hidx None [l] 0 l) as (_ & Hdb & _ & Hlater).
    + reflexivity.
    + reflexivity.
    + reflexivity.
    + done.
    + simpl. intros [[=]|[]%elem_of_nil]%elem_of_cons.
    + split; [exact Hdb|]. apply (Hlater []). constructor.
Defined.

(** C1 as stated fails in index.js when the type test fails: a valid
    record of type "receiver" bound to dev1, reached through [generate]
    and [validate], is not revoked by a validation from dev2 that names no
    type; the response is 403 "License type mismatch", the store is
    unchanged, and dev1 validates again afterwards. *)
Lemma other_device_type_mismatch :
  let l := Index.mkLicense "KEY1" (Some "receiver") "a@x.com" true ["dev1"] (Some 5%Z) in
  let db := Index.run
              [Index.PostGenerate (Some "a@x.com") (Some "KEY1") (Some "receiver");
               Index.PostValidate 5 (Some "receiver") (Some "KEY1") (Some "dev1")] [] in
  db = [l] ∧ Index.valid l = true ∧ Index.deviceId l ≠ [] ∧
  ("dev2" ∉ Index.deviceId l) ∧
  Index.validate 9 None (Some "KEY1") (Some "dev2") db = (db, type_mismatch) ∧
  (Index.validate 11 (Some "receiver") (Some "KEY1") (Some "dev1") db).2 = validated.
Proof.
  split_and!; try reflexivity; [done|].
  intros [[=]|[]%elem_of_nil]%elem_of_cons.
Qed.

(** * Summary and listing, in both editions *)

(** C10. The three counts of the summary, in either edition, satisfy
    [totalLicenses = activeLicenses + revokedLicenses], the total is the
    number of records, and the store is unchanged.  [valid] is a boolean
    in every record by the schema. *)
Theorem summary_counts :
  (∀ db : Index.Store,
     let out := Index.licenses_summary db in
     out.1 = db ∧ totalLicenses out.2 = length db ∧
     totalLicenses out.2 = activeLicenses out.2 + revokedLicenses out.2) ∧
  (∀ db : Part000.Store,
     let out := Part000.licenses_summary db in
     out.1 = db ∧ totalLicenses out.2 = length db ∧
     totalLicenses out.2 = activeLicenses out.2 + revokedLicenses out.2).
Proof.
  split; intros db; simpl; split_and!; try done.
  - unfold Mongoose.countDocuments. by rewrite filter_True.
  - apply (countDocuments_split Index.valid).
  - unfold Mongoose.countDocuments. by rewrite filter_True.
  - apply (countDocuments_split Part000.valid).
Qed.

(** C9. Listing by type (index.js) returns the records whose type is the
    argument, and listing without a type (part_000) returns all records;
    in both the result is ordered by [lastUsed] descending: a record comes
    before every record used at the same time or earlier, and before every
    record never used.  The store is unchanged. *)
Theorem list_sorted_by_lastUsed :
  (∀ (t : string) (db : Index.Store),
     let out := Index.licenses_by_type t db in
     out.1 = db ∧
     out.2 ≡ₚ filter (λ l, Index.type l = Some t) db ∧
     (∀ l, l ∈ out.2 ↔ l ∈ db ∧ Index.type l = Some t) ∧
     StronglySorted (λ a b, date_le (Index.lastUsed b) (Index.lastUsed a)) out.2) ∧
  (∀ db : Part000.Store,
     let out := Part000.licenses db in
     out.1 = db ∧
     out.2 ≡ₚ db ∧
     StronglySorted (λ a b, date_le (Part000.lastUsed b) (Part000.lastUsed a)) out.2).
Proof.
  split.
  - intros t db. simpl.
    destruct (sort_lastUsed_desc_spec Index.lastUsed
                (Mongoose.find (λ l, Index.type l = Some t) db)) as [Hp Hs].
    split_and!; [done|exact Hp| |exact Hs].
    intros l. rewrite Hp. unfold Mongoose.find. rewrite list_elem_of_filter. tauto.
  - intros db. simpl.
    destruct (sort_lastUsed_desc_spec Part000.lastUsed
                (Mongoose.find (λ _, True) db)) as [Hp Hs].
    unfold Mongoose.find in *. rewrite filter_True in *.
    split_and!; [done|exact Hp|exact Hs].
Qed.

(** The listing on three records: the latest use first, the record never
    used last. *)
Example list_three_records :
  let a := Index.mkLicense "K1" (Some "sender") "a@x.com" true ["d1"] (Some 5%Z) in
  let b := Index.mkLicense "K2" (Some "sender") "b@x.com" true [] None in
  let c := Index.mkLicense "K3" (Some "sender") "c@x.com" false ["d3"] (Some 9%Z) in
  let d := Index.mkLicense "K4" (Some "receiver") "d@x.com" true ["d4"] (Some 7%Z) in
  (Index.licenses_by_type "sender" [a; b; c; d]).2 = [c; a; b].
Proof. reflexivity. Qed.

(** * Further properties of the handlers *)

(** ** Steps of the collection *)
Section StepFacts.
Context {D : Type} (licenseKey : D → string) (same : D → D → Prop).
Implicit Types (db : list D) (d : D) (key : string).

Local Abbreviation findOne := (Mongoose.findOne licenseKey).
Local Abbreviation store_step := (Steps.store_step licenseKey same).

(** What [findOne] returns is the first document with the key. *)
Lemma findOne_head_filter key db :
  snd <$> findOne key db = head (filter (λ d, licenseKey d = key) db).
Proof.
  unfold Mongoose.findOne. induction db as [|d db IH]; [done|].
  simpl. rewrite filter_cons. case_decide; [done|].
  rewrite <- IH. by destruct (list_find _ db) as [[]|].
Qed.

Lemma keys_save db i d d' :
  db !! i = Some d → licenseKey d' = licenseKey d →
  licenseKey <$> Mongoose.save (i, d') db = licenseKey <$> db.
Proof.
  intros Hi Hk. unfold Mongoose.save. simpl.
  rewrite list_fmap_insert. apply list_insert_id.
  rewrite list_lookup_fmap, Hi. simpl. by rewrite Hk.
Qed.

Lemma findOne_None_not_key key db :
  findOne key db = None → key ∉ licenseKey <$> db.
Proof.
  unfold Mongoose.findOne. rewrite list_find_None, Forall_forall.
  intros Hall (d & -> & Hd)%list_elem_of_fmap. by apply (Hall d).
Qed.

(** With distinct keys, deleting the document of a key leaves none. *)
Lemma findOne_delete_unique key db i d :
  NoDup (licenseKey <$> db) → findOne key db = Some (i, d) →
  findOne key (delete i db) = None.
Proof.
  intros Hnd Hf. destruct (findOne_Some _ _ _ _ _ Hf) as [Hi Hk].
  unfold Mongoose.findOne. apply list_find_None, Forall_lookup.
  intros j e Hj He.
  assert (∀ p, db !! p = Some e → p = i) as Hsame.
  { intros p Hp. apply (NoDup_lookup _ p i key Hnd);
      rewrite list_lookup_fmap; [by rewrite Hp; simpl; rewrite He
                                |by rewrite Hi; simpl; rewrite Hk]. }
  destruct (decide (j < i)).
  - rewrite list_lookup_delete_lt in Hj by done. apply Hsame in Hj. lia.
  - rewrite list_lookup_delete_ge in Hj by lia. apply Hsame in Hj. lia.
Qed.

(** A step keeps the keys distinct. *)
Lemma store_step_NoDup target db db' :
  store_step target db db' →
  NoDup (licenseKey <$> db) → NoDup (licenseKey <$> db').
Proof.
  intros [|key i d d' _ Hf Hk _|key d' _ Hf Hk|key i d _ Hf] Hnd.
  - done.
  - destruct (findOne_Some _ _ _ _ _ Hf) as [Hi Hd].
    rewrite (keys_save db i d d'); [done..|congruence].
  - unfold Mongoose.create. rewrite fmap_app. apply NoDup_app.
    split_and!; [done| |apply NoDup_singleton].
    intros x Hx ->%list_elem_of_singleton.
    apply (findOne_None_not_key key db); [done|]. by rewrite <- Hk.
  - rewrite list_fmap_delete. eapply sublist_NoDup; [done|apply sublist_delete].
Qed.

(** A step leaves the documents of every key it does not address as they
    were, in their order. *)
Lemma store_step_frame target db db' key :
  store_step target db db' → target ≠ Some key →
  filter (λ d, licenseKey d = key) db' = filter (λ d, licenseKey d = key) db.
Proof.
  intros [|key' i d d' -> Hf Hk _|key' d' -> Hf Hk|key' i d -> Hf] Hne.
  - done.
  - destruct (findOne_Some _ _ _ _ _ Hf) as [Hi Hd].
    unfold Mongoose.save. simpl.
    rewrite insert_take_drop by eauto using lookup_lt_Some.
    rewrite <- (take_drop_middle db i d) at 3 by done.
    rewrite !filter_app, !filter_cons_False; [done|congruence..].
  - unfold Mongoose.create. rewrite filter_app, filter_cons_False; [|congruence].
    by rewrite filter_nil, app_nil_r.
  - destruct (findOne_Some _ _ _ _ _ Hf) as [Hi Hd].
    rewrite delete_take_drop.
    rewrite <- (take_drop_middle db i d) at 3 by done.
    rewrite !filter_app, filter_cons_False; [done|congruence].
Qed.

(** With distinct keys, a step relates by [same] the documents that a key
    has before and after it. *)
Lemma store_step_same target db db' key i d i' d' :
  (∀ d, same d d) →
  store_step target db db' → NoDup (licenseKey <$> db) →
  findOne key db = Some (i, d) → findOne key db' = Some (i', d') →
  same d d'.
Proof.
  intros Hrefl Hstep Hnd Hf Hf'.
  destruct (decide (target = Some key)) as [Ht|Ht].
  - destruct Hstep as [|key' j e e' Hk Hg He Hs|key' e' Hk Hg He|key' j e Hk Hg].
    + assert (d' = d) as -> by congruence. done.
    + assert (key' = key) as -> by congruence.
      assert (j = i ∧ e = d) as [-> ->] by (split; congruence).
      rewrite (findOne_save_same licenseKey key db i d e') in Hf' by done.
      by injection Hf' as _ <-.
    + assert (key' = key) as -> by congruence. congruence.
    + assert (key' = key) as -> by congruence.
      assert (j = i ∧ e = d) as [-> ->] by (split; congruence).
      rewrite (findOne_delete_unique key db i d) in Hf' by done. done.
  - pose proof (store_step_frame target db db' key Hstep Ht) as Hfr.
    pose proof (findOne_head_filter key db) as H1.
    pose proof (findOne_head_filter key db') as H2.
    rewrite Hfr, <- H1, Hf, Hf' in H2. simpl in H2.
    injection H2 as ->. done.
Qed.

End StepFacts.

(** ** Steps of the handlers of src/index.js *)

Lemma same_identity_refl l : same_identity l l.
Proof. by split. Qed.

(** Every request is a step of the collection at the key it addresses. *)
Lemma handle_store_step r db :
  Steps.store_step licenseKey same_identity (target r) db (handle r db).1.
Proof.
  destruct r as [now t k d|e k t| |t|k|k|k c]; simpl; try by constructor.
  - unfold validate.
    destruct (truthy k) as [key|]; [|by constructor].
    destruct (truthy d) as [dev|]; [|by constructor].
    destruct (findOne key db) as [[i l]|] eqn:Hf; [|by constructor].
    destruct (findOne_Some _ _ _ _ _ Hf) as [_ Hl].
    repeat case_match; simpl; try (by constructor);
      by apply (Steps.step_update _ _ _ _ key i l).
  - unfold generate.
    destruct (truthy e) as [email'|]; [|by constructor].
    destruct (truthy k) as [key|]; [|by constructor].
    destruct (findOne key db) as [[i l]|] eqn:Hf; [by constructor|].
    simpl. by apply (Steps.step_create _ _ _ _ key).
  - unfold licenses_delete, Mongoose.findOneAndDelete.
    destruct (truthy k) as [key|]; [|by constructor].
    destruct (findOne key db) as [[i l]|] eqn:Hf; [|by constructor].
    simpl. by apply (Steps.step_delete _ _ _ _ key i l).
  - unfold licenses_revoke.
    destruct (truthy k) as [key|]; [|by constructor].
    destruct (findOne key db) as [[i l]|] eqn:Hf; [|by constructor].
    destruct (findOne_Some _ _ _ _ _ Hf) as [_ Hl].
    case_match; simpl; [by constructor|].
    by apply (Steps.step_update _ _ _ _ key i l).
  - unfold licenses_reactivate.
    destruct (truthy k) as [key|]; [|by constructor].
    destruct (findOne key db) as [[i l]|] eqn:Hf; [|by constructor].
    destruct (findOne_Some _ _ _ _ _ Hf) as [_ Hl].
    simpl. apply (Steps.step_update _ _ _ _ key i l); try done;
      by destruct c.
Qed.

Lemma run_keys_NoDup rs db :
  NoDup (licenseKey <$> db) → NoDup (licenseKey <$> run rs db).
Proof.
  revert db. induction rs as [|r rs IH]; intros db Hdb; [done|].
  simpl. apply IH.
  by eapply store_step_NoDup; [apply handle_store_step|].
Qed.

(** ** Steps of the handlers of src/unnamed/part_000 *)
Module Part000Steps.
Import Part000.

Lemma legacy_same_identity_refl l : same_identity l l.
Proof. done. Qed.

Lemma legacy_handle_store_step r db :
  Steps.store_step licenseKey same_identity (target r) db (handle r db).1.
Proof.
  destruct r as [now k d|e k| | |k]; simpl; try by constructor.
  - unfold validate.
    destruct (truthy k) as [key|]; [|by constructor].
    destruct (truthy d) as [dev|]; [|by constructor].
    destruct (findOne key db) as [[i l]|] eqn:Hf; [|by constructor].
    destruct (findOne_Some _ _ _ _ _ Hf) as [_ Hl].
    repeat case_match; simpl; try (by constructor);
      by apply (Steps.step_update _ _ _ _ key i l).
  - unfold generate.
    destruct (truthy e) as [email'|]; [|by constructor].
    destruct (truthy k) as [key|]; [|by constructor].
    destruct (findOne key db) as [[i l]|] eqn:Hf; [by constructor|].
    simpl. by apply (Steps.step_create _ _ _ _ key).
  - unfold licenses_revoke.
    destruct (truthy k) as [key|]; [|by constructor].
    destruct (findOne key db) as [[i l]|] eqn:Hf; [|by constructor].
    destruct (findOne_Some _ _ _ _ _ Hf) as [_ Hl].
    case_match; simpl; [by constructor|].
    by apply (Steps.step_update _ _ _ _ key i l).
Qed.

Lemma legacy_run_keys_NoDup rs db :
  NoDup (licenseKey <$> db) → NoDup (licenseKey <$> run rs db).
Proof.
  revert db. induction rs as [|r rs IH]; intros db Hdb; [done|].
  simpl. apply IH.
  by eapply store_step_NoDup; [apply legacy_handle_store_step|].
Qed.

End Part000Steps.

(** ** Keys, other records and identity fields *)

(** X1. License keys stay pairwise distinct: a request on a store with
    distinct keys gives a store with distinct keys, so every store reached
    from the empty one has distinct keys, in both editions. [generate]
    adds a key only after [findOne] found no record of it. *)
Theorem license_keys_stay_distinct :
  (∀ r db, NoDup (Index.licenseKey <$> db) →
           NoDup (Index.licenseKey <$> (Index.handle r db).1)) ∧
  (∀ rs, NoDup (Index.licenseKey <$> Index.run rs [])) ∧
  (∀ r db, NoDup (Part000.licenseKey <$> db) →
           NoDup (Part000.licenseKey <$> (Part000.handle r db).1)) ∧
  (∀ rs, NoDup (Part000.licenseKey <$> Part000.run rs [])).
Proof.
  split_and!.
  - intros r db. eapply store_step_NoDup, handle_store_step.
  - intros rs. apply run_keys_NoDup. constructor.
  - intros r db.
    eapply store_step_NoDup, Part000Steps.legacy_handle_store_step.
  - intros rs. apply Part000Steps.legacy_run_keys_NoDup. constructor.
Qed.

(** X2. A request leaves the records of every key it does not address as
    they were: the documents of such a key are the same, in the same
    order, and [findOne] returns the same document for it. *)
Theorem request_leaves_other_keys r db key :
  target r ≠ Some key →
  filter (λ l, licenseKey l = key) (handle r db).1
  = filter (λ l, licenseKey l = key) db ∧
  snd <$> findOne key (handle r db).1 = snd <$> findOne key db.
Proof.
  intros Hne.
  pose proof (store_step_frame licenseKey same_identity _ _ _ key
                (handle_store_step r db) Hne) as Hfr.
  split; [done|]. by rewrite !findOne_head_filter, Hfr.
Qed.

Lemma request_leaves_other_keys_witness :
  let a := mkLicense "KEY1" (Some "sender") "a@x.com" true ["dev1"] (Some 5%Z) in
  let b := mkLicense "KEY2" (Some "sender") "b@x.com" true [] None in
  snd <$> findOne "KEY1" (handle (PostDelete (Some "KEY2")) [b; a]).1 = Some a.
Proof.
  intros a b.
  destruct (request_leaves_other_keys (PostDelete (Some "KEY2")) [b; a] "KEY1")
    as [_ H]; [done|exact H].
Defined.

(** X3. No request changes the key, the email or the type of a license:
    on a store with distinct keys, the record that a key has after a
    request has the email and the type of the record it had before. *)
Theorem identity_fields_immutable r db key i l i' l' :
  NoDup (licenseKey <$> db) →
  findOne key db = Some (i, l) →
  findOne key (handle r db).1 = Some (i', l') →
  licenseKey l' = licenseKey l ∧ email l' = email l ∧ type l' = type l.
Proof.
  intros Hnd Hf Hf'.
  destruct (store_step_same licenseKey same_identity (target r) db
              (handle r db).1 key i l i' l') as [He Ht];
    auto using same_identity_refl, handle_store_step.
  destruct (findOne_Some _ _ _ _ _ Hf) as [_ Hk].
  destruct (findOne_Some _ _ _ _ _ Hf') as [_ Hk'].
  split_and!; congruence.
Qed.

Lemma identity_fields_immutable_witness :
  let a := mkLicense "KEY1" (Some "sender") "a@x.com" false ["dev1"] (Some 5%Z) in
  let a' := mkLicense "KEY1" (Some "sender") "a@x.com" true [] (Some 5%Z) in
  (handle (PostReactivate (Some "KEY1") true) [a]).1 = [a'] ∧ email a' = email a.
Proof.
  intros a a'. split; [reflexivity|].
  apply (identity_fields_immutable (PostReactivate (Some "KEY1") true)
           [a] "KEY1" 0 a 0 a').
  - simpl. apply NoDup_singleton.
  - reflexivity.
  - reflexivity.
Defined.

(** ** Deletion, and how the administrator's requests compose *)

(** X4. Deletion of a key that is present: with no record the response is
    404 "License not found" and the store is unchanged; with a record the
    response is 200 "License deleted successfully", the record found is
    removed, the store has one record less, and, the keys being distinct,
    the key has no record afterwards. *)
Theorem delete_spec key db :
  key ≠ "" →
  let out := licenses_delete (Some key) db in
  match findOne key db with
  | None => out = (db, not_found)
  | Some (i, l) =>
      out = (delete i db, deleted_ok) ∧
      length out.1 + 1 = length db ∧
      (NoDup (licenseKey <$> db) → findOne key out.1 = None)
  end.
Proof.
  intros Hkey out. unfold out, licenses_delete, Mongoose.findOneAndDelete.
  rewrite truthy_present by done.
  destruct (findOne key db) as [[i l]|] eqn:Hf; [|done].
  destruct (findOne_Some _ _ _ _ _ Hf) as [Hi _].
  simpl. split_and!; [done| |].
  - rewrite length_delete by eauto.
    apply lookup_lt_Some in Hi. lia.
  - intros Hnd. by apply (findOne_delete_unique licenseKey key db i l).
Qed.

Lemma delete_spec_witness :
  let a := mkLicense "KEY1" (Some "sender") "a@x.com" true ["dev1"] (Some 5%Z) in
  let b := mkLicense "KEY2" (Some "sender") "b@x.com" true [] None in
  licenses_delete (Some "KEY1") [a; b] = ([b], deleted_ok) ∧
  licenses_delete (Some "KEY3") [a; b] = ([a; b], not_found).
Proof.
  intros a b. split.
  - destruct (delete_spec "KEY1" [a; b]) as (H & _); [done|exact H].
  - apply (delete_spec "KEY3" [a; b]). done.
Defined.

(** X5. Deleting a license and issuing its key again gives a fresh
    license: whatever the deleted record was (revoked, bound to a device),
    the new record is valid, has no bound device and was never used. *)
Theorem delete_then_generate_fresh key email' body_type db i l :
  key ≠ "" → email' ≠ "" →
  NoDup (licenseKey <$> db) →
  findOne key db = Some (i, l) →
  let db1 := (licenses_delete (Some key) db).1 in
  let out := generate (Some email') (Some key) body_type db1 in
  out.2 = created ∧
  findOne key out.1
  = Some (length db1, mkLicense key body_type email' true [] None).
Proof.
  intros Hkey Hemail Hnd Hf db1 out.
  assert (findOne key db1 = None) as Hnone.
  { unfold db1, licenses_delete, Mongoose.findOneAndDelete.
    rewrite truthy_present, Hf by done. simpl.
    by apply (findOne_delete_unique licenseKey key db i l). }
  unfold out, generate. rewrite !truthy_present, Hnone by done. simpl.
  split; [done|]. by apply findOne_create_new.
Qed.

Lemma delete_then_generate_fresh_witness :
  let a := mkLicense "KEY1" (Some "sender") "a@x.com" false ["dev1"] (Some 5%Z) in
  (generate (Some "b@x.com") (Some "KEY1") None
     (licenses_delete (Some "KEY1") [a]).1).2 = created.
Proof.
  intros a.
  destruct (delete_then_generate_fresh "KEY1" "b@x.com" None [a] 0 a)
    as [H _]; [done|done|apply NoDup_singleton|reflexivity|exact H].
Defined.

Lemma set_valid_back (l : License) :
  valid l = true → set_valid true (set_valid false l) = l.
Proof. destruct l; simpl; by intros ->. Qed.

(** X6. Revoking a valid license and reactivating it without
    [resetDevices] is a round trip: both requests succeed and the store is
    exactly the one before, bound device and [lastUsed] included. *)
Theorem revoke_reactivate_round_trip key db i l :
  key ≠ "" → findOne key db = Some (i, l) → valid l = true →
  let out := licenses_revoke (Some key) db in
  let out' := licenses_reactivate (Some key) false out.1 in
  out.2 = revoked_ok ∧ out' = (db, reactivated).
Proof.
  intros Hkey Hf Hv out out'.
  destruct (findOne_Some _ _ _ _ _ Hf) as [Hi Hk].
  assert (out = (save (i, set_valid false l) db, revoked_ok)) as Hout.
  { unfold out, licenses_revoke. by rewrite truthy_present, Hf, Hv. }
  split; [by rewrite Hout|].
  unfold out', licenses_reactivate. rewrite Hout, truthy_present by done.
  simpl. rewrite (findOne_save_same licenseKey key db i l) by done.
  rewrite set_valid_back by done.
  unfold Mongoose.save. simpl.
  by rewrite list_insert_insert_eq, list_insert_id.
Qed.

Lemma revoke_reactivate_round_trip_witness :
  let a := mkLicense "KEY1" (Some "sender") "a@x.com" true ["dev1"] (Some 5%Z) in
  licenses_reactivate (Some "KEY1") false (licenses_revoke (Some "KEY1") [a]).1
  = ([a], reactivated).
Proof.
  intros a.
  destruct (revoke_reactivate_round_trip "KEY1" [a] 0 a) as [_ H];
    [done|reflexivity|reflexivity|exact H].
Defined.

(** X7. Reactivation is idempotent: a second reactivation with the same
    arguments gives the same response and leaves the store of the first
    one as it is. *)
Theorem reactivate_idempotent body_licenseKey body_resetDevices db :
  let out := licenses_reactivate body_licenseKey body_resetDevices db in
  licenses_reactivate body_licenseKey body_resetDevices out.1 = out.
Proof.
  intros out. unfold out, licenses_reactivate.
  destruct (truthy body_licenseKey) as [key|]; [|done].
  destruct (findOne key db) as [[i l]|] eqn:Hf; simpl; [|by rewrite Hf].
  destruct (findOne_Some _ _ _ _ _ Hf) as [Hi Hk].
  set (l' := if body_resetDevices then set_deviceId [] (set_valid true l)
             else set_valid true l).
  assert (licenseKey l' = key) as Hl' by (unfold l'; by destruct body_resetDevices).
  rewrite (findOne_save_same licenseKey key db i l l') by done.
  assert ((if body_resetDevices then set_deviceId [] (set_valid true l')
           else set_valid true l') = l') as ->
    by (unfold l'; by destruct body_resetDevices).
  unfold Mongoose.save. simpl. by rewrite list_insert_insert_eq.
Qed.

(** ** The life of a license in src/index.js *)

Lemma save_last {D : Type} (db : list D) (d d' : D) :
  Mongoose.save (length db, d') (db ++ [d]) = db ++ [d'].
Proof.
  unfold Mongoose.save. simpl.
  replace (length db) with (length db + 0) by lia.
  by rewrite insert_app_r.
Qed.

(** X8. The life of a license issued with a type [t]: the first
    validation that asks for [t] binds its device and sets [lastUsed], a
    second validation from that device succeeds and only moves [lastUsed],
    and a validation from another device answers 403 "License revoked:
    used on multiple devices." and leaves the record revoked, its device
    and [lastUsed] kept. *)
Theorem issued_license_lifecycle key email' t query_type devA devB now1 now2 now3 db :
  key ≠ "" → email' ≠ "" → devA ≠ "" → devB ≠ "" → devA ≠ devB →
  or_default query_type "sender" = t →
  findOne key db = None →
  let out0 := generate (Some email') (Some key) (Some t) db in
  let out1 := validate now1 query_type (Some key) (Some devA) out0.1 in
  let out2 := validate now2 query_type (Some key) (Some devA) out1.1 in
  let out3 := validate now3 query_type (Some key) (Some devB) out2.1 in
  out0 = (db ++ [mkLicense key (Some t) email' true [] None], created) ∧
  out1 = (db ++ [mkLicense key (Some t) email' true [devA] (Some now1)],
          validated) ∧
  out2 = (db ++ [mkLicense key (Some t) email' true [devA] (Some now2)],
          validated) ∧
  out3 = (db ++ [mkLicense key (Some t) email' false [devA] (Some now2)],
          revoked_multiple_devices).
Proof.
  intros Hkey Hemail HA HB HAB Ht Hnone out0 out1 out2 out3.
  assert (out0 = (db ++ [mkLicense key (Some t) email' true [] None], created))
    as H0.
  { unfold out0, generate. by rewrite !truthy_present, Hnone by done. }
  assert (∀ l, licenseKey l = key →
               findOne key (db ++ [l]) = Some (length db, l)) as Hlast.
  { intros l Hl. by apply (findOne_create_new licenseKey key db l). }
  assert (out1 = (db ++ [mkLicense key (Some t) email' true [devA] (Some now1)],
                  validated)) as H1.
  { unfold out1. rewrite H0. simpl.
    rewrite (validate_binds_first_device now1 query_type key devA _ (length db)
               (mkLicense key (Some t) email' true [] None));
      try done; [|by apply Hlast|by unfold type_matches; rewrite Ht].
    by rewrite save_last. }
  assert (out2 = (db ++ [mkLicense key (Some t) email' true [devA] (Some now2)],
                  validated)) as H2.
  { unfold out2. rewrite H1. simpl.
    destruct (validate_bound_branch now2 query_type key devA
                (db ++ [mkLicense key (Some t) email' true [devA] (Some now1)])
                (length db) (mkLicense key (Some t) email' true [devA] (Some now1)))
      as [-> _]; try done;
      [by apply Hlast|by unfold type_matches; rewrite Ht
      |by apply list_elem_of_singleton|].
    by rewrite save_last. }
  split_and!; [done..|].
  unfold out3. rewrite H2. simpl.
  destruct (validate_revoking_branch now3 query_type key devB
              (db ++ [mkLicense key (Some t) email' true [devA] (Some now2)])
              (length db) (mkLicense key (Some t) email' true [devA] (Some now2)))
    as [-> _]; try done;
    [by apply Hlast|by unfold type_matches; rewrite Ht
    |by intros ?%list_elem_of_singleton|].
  by rewrite save_last.
Qed.

Lemma issued_license_lifecycle_witness :
  (validate 3 None (Some "KEY1") (Some "dev2")
     (validate 2 None (Some "KEY1") (Some "dev1")
        (validate 1 None (Some "KEY1") (Some "dev1")
           (generate (Some "a@x.com") (Some "KEY1") (Some "sender") []).1).1).1)
  = ([mkLicense "KEY1" (Some "sender") "a@x.com" false ["dev1"] (Some 2%Z)],
     revoked_multiple_devices).
Proof.
  destruct (issued_license_lifecycle "KEY1" "a@x.com" "sender" None
              "dev1" "dev2" 1 2 3 []) as (_ & _ & _ & H); [done..|exact H].
Defined.

Lemma or_default_not_empty x d : d ≠ "" → or_default x d ≠ "".
Proof.
  intros Hd. unfold or_default.
  destruct (truthy x) as [s|] eqn:Hx; [|done].
  by apply truthy_Some in Hx as [_ ?].
Qed.

(** A validation of a record whose type is absent or empty stops at the
    lookup or at the type test. *)
Lemma validate_untyped now query_type key body_deviceId db i l :
  findOne key db = Some (i, l) → type l = None ∨ type l = Some "" →
  let out := validate now query_type (Some key) body_deviceId db in
  out.1 = db ∧ success out.2 = false.
Proof.
  intros Hf Hty out. unfold out, validate.
  destruct (truthy (Some key)) as [key'|] eqn:Hk; [|done].
  apply truthy_Some in Hk as [[= <-] _].
  destruct (truthy body_deviceId) as [dev|]; [|done].
  rewrite Hf. destruct (valid l); [|done]. simpl.
  rewrite bool_decide_eq_false_2; [done|].
  pose proof (or_default_not_empty query_type "sender") as Hne.
  destruct Hty as [-> | ->]; [done|]. intros [= Heq]. by apply Hne.
Qed.

(** The record of a key whose type is absent or empty keeps its type and
    its [lastUsed] through every request that is not its deletion. *)
Lemma untyped_stays_handle r key db i l :
  keeps_record key r →
  findOne key db = Some (i, l) → type l = None ∨ type l = Some "" →
  ∃ i' l', findOne key (handle r db).1 = Some (i', l') ∧
    type l' = type l ∧ lastUsed l' = lastUsed l.
Proof.
  intros Hr Hf Hty.
  destruct (decide (target r = Some key)) as [Ht|Ht].
  - destruct (findOne_Some _ _ _ _ _ Hf) as [_ Hl].
    destruct r as [now t k d|e k t| |t|k|k|k c]; simpl in *; try done.
    + assert (k = Some key) as -> by by apply truthy_Some in Ht as [? _].
      destruct (validate_untyped now t key d db i l Hf Hty) as [-> _]. eauto.
    + unfold generate. rewrite Ht.
      destruct (truthy e); rewrite ?Hf; eauto.
    + unfold licenses_revoke. rewrite Ht, Hf.
      destruct (valid l); simpl; [|eauto].
      exists i, (set_valid false l). split; [|done].
      by apply findOne_save_same with l.
    + unfold licenses_reactivate. rewrite Ht, Hf. simpl.
      eexists i, _. split; [by apply findOne_save_same with l; destruct c|].
      by destruct c.
  - pose proof (store_step_frame licenseKey same_identity _ _ _ key
                  (handle_store_step r db) Ht) as Hfr.
    pose proof (findOne_head_filter licenseKey key (handle r db).1) as H1.
    rewrite Hfr, <- findOne_head_filter, Hf in H1. simpl in H1.
    destruct (findOne key (handle r db).1) as [[i' l']|]; [|done].
    injection H1 as ->. eauto.
Qed.

(** X9. A license whose type is absent (issued without a type) or empty
    is never validated: every validation of its key fails and leaves the
    store unchanged, whatever type the request asks for, and after any
    requests other than the deletion of the key its [lastUsed] is what it
    was. *)
Theorem untyped_license_never_validates key db i l rs :
  findOne key db = Some (i, l) → type l = None ∨ type l = Some "" →
  Forall (keeps_record key) rs →
  (∃ i' l', findOne key (run rs db) = Some (i', l') ∧
     type l' = type l ∧ lastUsed l' = lastUsed l) ∧
  ∀ now query_type body_deviceId,
    let out := validate now query_type (Some key) body_deviceId (run rs db) in
    out.1 = run rs db ∧ success out.2 = false.
Proof.
  intros Hf Hty Hrs.
  assert (∃ i' l', findOne key (run rs db) = Some (i', l') ∧
            type l' = type l ∧ lastUsed l' = lastUsed l) as Hrun.
  { revert db i l Hf Hty.
    induction Hrs as [|r rs Hr _ IH]; intros db i l Hf Hty; [eauto|].
    destruct (untyped_stays_handle r key db i l) as (i1 & l1 & Hf1 & Ht1 & Hu1);
      try done.
    simpl. destruct (IH (handle r db).1 i1 l1) as (i' & l' & ? & ? & ?);
      [done|by rewrite Ht1|].
    exists i', l'. split_and!; congruence. }
  split; [done|].
  destruct Hrun as (i' & l' & Hf' & Ht' & _).
  intros now query_type body_deviceId.
  apply (validate_untyped now query_type key body_deviceId _ i' l'); [done|].
  by rewrite Ht'.
Qed.

Lemma untyped_license_never_validates_witness :
  let db := (generate (Some "a@x.com") (Some "KEY1") None []).1 in
  (validate 9 (Some "sender") (Some "KEY1") (Some "dev1") (run [] db)).1 = db.
Proof.
  intros db.
  destruct (untyped_license_never_validates "KEY1" db 0
              (mkLicense "KEY1" None "a@x.com" true [] None) [])
    as [_ H].
  - reflexivity.
  - by left.
  - constructor.
  - apply (H 9%Z (Some "sender") (Some "dev1")).
Defined.

(** ** Responses and the store *)

(** X10. A request that is answered with [success: false] leaves the
    store unchanged, with one exception: the validation answered 403
    "License revoked: used on multiple devices.", which has just revoked
    the license. *)
Theorem failed_request_keeps_store r db rep :
  reply_of (handle r db).2 = Some rep → success rep = false →
  (handle r db).1 = db ∨
  (rep = revoked_multiple_devices ∧
   ∃ now query_type key dev, r = PostValidate now query_type (Some key) (Some dev)).
Proof.
  destruct r as [now t k d|e k t| |t|k|k|k c]; simpl; try done.
  - unfold validate.
    destruct (truthy k) as [key|] eqn:Hk; [|by left].
    destruct (truthy d) as [dev|] eqn:Hd; [|by left].
    apply truthy_Some in Hk as [-> _]. apply truthy_Some in Hd as [-> _].
    destruct (findOne key db) as [[i l]|]; [|by left].
    repeat case_match; simpl; intros [= <-] Hs; try done; try by left.
    right. split; [done|]. by exists now, t, key, dev.
  - unfold generate. repeat case_match; simpl; intros [= <-] Hs; try done; by left.
  - unfold licenses_delete, Mongoose.findOneAndDelete.
    repeat case_match; simplify_eq/=; intros [= <-] Hs; try done; by left.
  - unfold licenses_revoke.
    repeat case_match; simpl; intros [= <-] Hs; try done; by left.
  - unfold licenses_reactivate.
    repeat case_match; simpl; intros [= <-] Hs; try done; by left.
Qed.

Lemma failed_request_keeps_store_witness :
  let a := mkLicense "KEY1" (Some "sender") "a@x.com" false ["dev1"] (Some 5%Z) in
  (handle (PostRevoke (Some "KEY1")) [a]).1 = [a].
Proof.
  intros a.
  destruct (failed_request_keeps_store (PostRevoke (Some "KEY1")) [a]
              already_revoked) as [H|[H _]].
  - reflexivity.
  - reflexivity.
  - exact H.
  - discriminate H.
Defined.

(** X11. A request whose license key is missing or empty changes nothing,
    and when its response is a [{ success, message }] object (every POST)
    it is a failure with status 400; so is a validation whose device is
    missing or empty. *)
Theorem missing_key_rejected r db :
  target r = None ∨
  (∃ now query_type k d, r = PostValidate now query_type k d ∧ truthy d = None) →
  (handle r db).1 = db ∧
  ∀ rep, reply_of (handle r db).2 = Some rep →
         status rep = 400 ∧ success rep = false.
Proof.
  intros [Ht|(now & t & k & d & -> & Hd)].
  - destruct r as [now t k d|e k t| |t|k|k|k c]; simpl in *; try done.
    + unfold validate. rewrite Ht. split; [done|]. by intros rep [= <-].
    + unfold generate. rewrite Ht.
      destruct (truthy e); (split; [done|]); by intros rep [= <-].
    + unfold licenses_delete. rewrite Ht. split; [done|]. by intros rep [= <-].
    + unfold licenses_revoke. rewrite Ht. split; [done|]. by intros rep [= <-].
    + unfold licenses_reactivate. rewrite Ht. split; [done|]. by intros rep [= <-].
  - simpl. unfold validate. rewrite Hd.
    destruct (truthy k); (split; [done|]); by intros rep [= <-].
Qed.

Lemma missing_key_rejected_witness :
  let a := mkLicense "KEY1" (Some "sender") "a@x.com" true ["dev1"] (Some 5%Z) in
  (handle (PostDelete (Some "")) [a]).1 = [a] ∧
  (handle (PostReactivate None true) [a]).1 = [a].
Proof.
  intros a. split.
  - apply (missing_key_rejected (PostDelete (Some "")) [a]). by left.
  - apply (missing_key_rejected (PostReactivate None true) [a]). by left.
Defined.



(** ** The summary through the requests *)

Section CountingSave.
Context {D : Type} (q : D → Prop) `{!∀ d, Decision (q d)}.

(** Writing a document back moves the count of [q] by what the old and
    the new document contribute. *)
Lemma countDocuments_save (db : list D) i d d' :
  db !! i = Some d →
  Mongoose.countDocuments q (Mongoose.save (i, d') db)
    + (if decide (q d) then 1 else 0)
  = Mongoose.countDocuments q db + (if decide (q d') then 1 else 0).
Proof.
  intros Hi. unfold Mongoose.countDocuments, Mongoose.save. simpl.
  rewrite insert_take_drop by eauto using lookup_lt_Some.
  rewrite <- (take_drop_middle db i d) at 3 by done.
  rewrite !filter_app, !filter_cons, !length_app.
  repeat case_decide; simpl; lia.
Qed.

Lemma countDocuments_create (db : list D) d :
  Mongoose.countDocuments q (Mongoose.create d db)
  = Mongoose.countDocuments q db + (if decide (q d) then 1 else 0).
Proof.
  unfold Mongoose.countDocuments, Mongoose.create.
  rewrite filter_app, filter_cons, length_app.
  case_decide; simpl; lia.
Qed.

Lemma countDocuments_delete (db : list D) i d :
  db !! i = Some d →
  Mongoose.countDocuments q (delete i db) + (if decide (q d) then 1 else 0)
  = Mongoose.countDocuments q db.
Proof.
  intros Hi. unfold Mongoose.countDocuments.
  rewrite delete_take_drop.
  rewrite <- (take_drop_middle db i d) at 3 by done.
  rewrite !filter_app, !filter_cons, !length_app.
  case_decide; simpl; lia.
Qed.

End CountingSave.

Lemma summary_eq (s s' : Summary) :
  totalLicenses s' = totalLicenses s → activeLicenses s' = activeLicenses s →
  revokedLicenses s' = revokedLicenses s → s' = s.
Proof. destruct s, s'; simpl; by intros -> -> ->. Qed.

(** The summary after a document is written back. *)
Lemma summary_save db i l l' :
  db !! i = Some l →
  let s := (licenses_summary db).2 in
  let s' := (licenses_summary (save (i, l') db)).2 in
  totalLicenses s' = totalLicenses s ∧
  activeLicenses s' + (if valid l then 1 else 0)
  = activeLicenses s + (if valid l' then 1 else 0) ∧
  revokedLicenses s' + (if valid l then 0 else 1)
  = revokedLicenses s + (if valid l' then 0 else 1).
Proof.
  intros Hi s s'. unfold s, s', licenses_summary. simpl.
  pose proof (countDocuments_save (λ _ : License, True) db i l l' Hi) as H0.
  pose proof (countDocuments_save (λ l, valid l = true) db i l l' Hi) as H1.
  pose proof (countDocuments_save (λ l, valid l = false) db i l l' Hi) as H2.
  repeat case_decide; destruct (valid l), (valid l'); try done; lia.
Qed.

Local Ltac summary_case :=
  first
    [ done
    | by intros [|]
    | solve [ intros Hn; exfalso; apply Hn;
              repeat (first [apply list_elem_of_here|apply list_elem_of_further]) ]
    | solve [ intros _; split_and!; simpl; lia ]
    | solve [ intros _; apply summary_eq; simpl; lia ] ].

(** X13. The summary follows the requests: an issued license adds one to
    the total and to the active licenses; a revocation, by the
    administrator or by a validation from a second device, moves one
    license from active to revoked; a deletion takes one from the total; a
    reactivation keeps the total and never lowers the active licenses; and
    every other response, a successful validation included, leaves the
    three counts as they were. *)
Theorem summary_tracks_requests r db rep :
  reply_of (handle r db).2 = Some rep →
  let s := (licenses_summary db).2 in
  let s' := (licenses_summary (handle r db).1).2 in
  (rep = created →
   totalLicenses s' = totalLicenses s + 1 ∧
   activeLicenses s' = activeLicenses s + 1 ∧
   revokedLicenses s' = revokedLicenses s) ∧
  (rep = revoked_ok ∨ rep = revoked_multiple_devices →
   totalLicenses s' = totalLicenses s ∧
   activeLicenses s' + 1 = activeLicenses s ∧
   revokedLicenses s' = revokedLicenses s + 1) ∧
  (rep = deleted_ok →
   totalLicenses s' + 1 = totalLicenses s ∧
   activeLicenses s' ≤ activeLicenses s ∧
   revokedLicenses s' ≤ revokedLicenses s) ∧
  (rep = reactivated →
   totalLicenses s' = totalLicenses s ∧
   activeLicenses s ≤ activeLicenses s' ∧
   revokedLicenses s' ≤ revokedLicenses s) ∧
  (rep ∉ [created; revoked_ok; revoked_multiple_devices; deleted_ok;
          reactivated] → s' = s).
Proof.
  destruct r as [now t k d|e k t| |t|k|k|k c]; simpl; try done.
  - unfold validate.
    destruct (truthy k) as [key|]; [|intros [= <-]; split_and!; summary_case].
    destruct (truthy d) as [dev|]; [|intros [= <-]; split_and!; summary_case].
    destruct (findOne key db) as [[i l]|] eqn:Hf;
      [|intros [= <-]; split_and!; summary_case].
    destruct (findOne_Some _ _ _ _ _ Hf) as [Hi _].
    destruct (valid l) eqn:Hv; simpl;
      [|intros [= <-]; split_and!; summary_case].
    case_bool_decide as Hty; simpl;
      [|intros [= <-]; split_and!; summary_case].
    case_match; simpl; intros [= <-].
    + destruct (summary_save db i l (set_valid false l) Hi) as (Hs0 & Hs1 & Hs2).
      rewrite Hv in Hs1, Hs2. unfold licenses_summary in *. simpl in *.
      split_and!; summary_case.
    + match goal with
      | |- context [save (i, ?l') db] =>
          destruct (summary_save db i l l' Hi) as (Hs0 & Hs1 & Hs2);
          assert (valid l' = true) as Hv' by by case_match
      end.
      rewrite Hv, Hv' in Hs1, Hs2. unfold licenses_summary in *. simpl in *.
      split_and!; summary_case.
  - unfold generate.
    destruct (truthy e) as [email'|]; [|intros [= <-]; split_and!; summary_case].
    destruct (truthy k) as [key|]; [|intros [= <-]; split_and!; summary_case].
    destruct (findOne key db) as [[i l]|] eqn:Hf;
      [intros [= <-]; split_and!; summary_case|].
    simpl. intros [= <-]. unfold licenses_summary. simpl.
    rewrite !countDocuments_create. simpl.
    split_and!; summary_case.
  - unfold licenses_delete, Mongoose.findOneAndDelete.
    destruct (truthy k) as [key|]; [|intros [= <-]; split_and!; summary_case].
    destruct (findOne key db) as [[i l]|] eqn:Hf;
      [|intros [= <-]; split_and!; summary_case].
    destruct (findOne_Some _ _ _ _ _ Hf) as [Hi _].
    simpl. intros [= <-]. unfold licenses_summary. simpl.
    pose proof (countDocuments_delete (λ _ : License, True) db i l Hi) as Hs0.
    pose proof (countDocuments_delete (λ l, valid l = true) db i l Hi) as Hs1.
    pose proof (countDocuments_delete (λ l, valid l = false) db i l Hi) as Hs2.
    rewrite decide_True in Hs0 by done. simpl in Hs1, Hs2.
    repeat case_decide; split_and!; summary_case.
  - unfold licenses_revoke.
    destruct (truthy k) as [key|]; [|intros [= <-]; split_and!; summary_case].
    destruct (findOne key db) as [[i l]|] eqn:Hf;
      [|intros [= <-]; split_and!; summary_case].
    destruct (findOne_Some _ _ _ _ _ Hf) as [Hi _].
    destruct (valid l) eqn:Hv; simpl;
      [|intros [= <-]; split_and!; summary_case].
    intros [= <-].
    destruct (summary_save db i l (set_valid false l) Hi) as (Hs0 & Hs1 & Hs2).
    rewrite Hv in Hs1, Hs2. unfold licenses_summary in *. simpl in *.
    split_and!; summary_case.
  - unfold licenses_reactivate.
    destruct (truthy k) as [key|]; [|intros [= <-]; split_and!; summary_case].
    destruct (findOne key db) as [[i l]|] eqn:Hf;
      [|intros [= <-]; split_and!; summary_case].
    destruct (findOne_Some _ _ _ _ _ Hf) as [Hi _].
    simpl. intros [= <-].
    match goal with
    | |- context [save (i, ?l') db] =>
        destruct (summary_save db i l l' Hi) as (Hs0 & Hs1 & Hs2);
        assert (valid l' = true) as Hv' by by destruct c
    end.
    rewrite Hv' in Hs1, Hs2. unfold licenses_summary in *. simpl in *.
    destruct (valid l); split_and!; summary_case.
Qed.

Lemma summary_tracks_requests_witness :
  let a := mkLicense "KEY1" (Some "sender") "a@x.com" true ["dev1"] (Some 5%Z) in
  let s := (licenses_summary [a]).2 in
  let s' := (licenses_summary (handle (PostRevoke (Some "KEY1")) [a]).1).2 in
  activeLicenses s' + 1 = activeLicenses s.
Proof.
  intros a s s'.
  destruct (summary_tracks_requests (PostRevoke (Some "KEY1")) [a] revoked_ok)
    as (_ & H & _); [reflexivity|].
  apply H. by left.
Defined.

(** * Further properties of src/unnamed/part_000 *)
Module Part000More.
Import Part000.

(** X14. Issuing a license in part_000: a missing email or key is answered
    400 "Missing fields" and a key that has a record 409 "License already
    exists", both with the store unchanged; otherwise the response is 200
    "License created" and a valid record with no device and no [lastUsed]
    is appended.  A [type] in the body is ignored. *)
Theorem legacy_issue_cases body_email body_licenseKey db :
  let out := generate body_email body_licenseKey db in
  match truthy body_email, truthy body_licenseKey with
  | Some email', Some key =>
      match findOne key db with
      | Some _ => out = (db, already_exists)
      | None =>
          out = (db ++ [mkLicense key email' true [] None], created) ∧
          findOne key out.1
          = Some (length db, mkLicense key email' true [] None) ∧
          ∀ key', key' ≠ key →
            snd <$> findOne key' out.1 = snd <$> findOne key' db
      end
  | _, _ => out = (db, missing_fields)
  end.
Proof.
  intros out. unfold out, generate.
  destruct (truthy body_email) as [email'|]; [|done].
  destruct (truthy body_licenseKey) as [key|]; [|done].
  destruct (findOne key db) as [[i l]|] eqn:Hf; [done|].
  simpl. split_and!; [done|by apply findOne_create_new|].
  intros key' Hne. rewrite !findOne_head_filter.
  unfold Mongoose.create. rewrite filter_app, filter_cons_False by done.
  by rewrite filter_nil, app_nil_r.
Qed.

(** X15. Revocation in part_000 of a key that is present: 404 with the
    store unchanged when the key has no record, 400 "License is already
    revoked" with the store unchanged when the record is revoked,
    otherwise 200 and the record written back with [valid = false]; a
    second revocation is then the 400 error. *)
Theorem legacy_revocation_cases key db :
  key ≠ "" →
  let out := licenses_revoke (Some key) db in
  match findOne key db with
  | None => out = (db, not_found)
  | Some (i, l) =>
      if valid l then
        out = (save (i, set_valid false l) db, revoked_ok) ∧
        findOne key out.1 = Some (i, set_valid false l) ∧
        licenses_revoke (Some key) out.1 = (out.1, already_revoked)
      else out = (db, already_revoked)
  end.
Proof.
  intros Hkey out.
  unfold out, licenses_revoke. rewrite truthy_present by done.
  destruct (findOne key db) as [[i l]|] eqn:Hf; [|done].
  destruct (valid l) eqn:Hv; [|done]. simpl.
  assert (findOne key (save (i, set_valid false l) db)
          = Some (i, set_valid false l)) as Hf'.
  { apply findOne_save_same with l; [done|].
    by destruct (findOne_Some _ _ _ _ _ Hf). }
  by rewrite Hf'.
Qed.

Lemma legacy_revocation_cases_witness :
  let l := mkLicense "KEY1" "a@x.com" true ["dev1"] (Some 5%Z) in
  licenses_revoke (Some "KEY1") [l] = ([set_valid false l], revoked_ok) ∧
  licenses_revoke (Some "KEY1") [set_valid false l]
    = ([set_valid false l], already_revoked).
Proof.
  intros l.
  destruct (legacy_revocation_cases "KEY1" [l]) as (H1 & _ & H2); [done|].
  split; [exact H1|exact H2].
Defined.

(** What a request of part_000 does to the record at a position. *)
Lemma legacy_handle_position r db i l :
  db !! i = Some l →
  ∃ l', (handle r db).1 !! i = Some l' ∧
    licenseKey l' = licenseKey l ∧ email l' = email l ∧
    (valid l = false → l' = l) ∧
    (length (deviceId l) ≤ 1 → length (deviceId l') ≤ 1).
Proof.
  intros Hi.
  assert (∀ j m m', findOne (licenseKey m) db = Some (j, m) →
            licenseKey m' = licenseKey m → email m' = email m →
            valid m = true →
            (length (deviceId m) ≤ 1 → length (deviceId m') ≤ 1) →
            ∃ l', save (j, m') db !! i = Some l' ∧
              licenseKey l' = licenseKey l ∧ email l' = email l ∧
              (valid l = false → l' = l) ∧
              (length (deviceId l) ≤ 1 → length (deviceId l') ≤ 1)) as Hsave.
  { intros j m m' Hf Hk He Hv Hd.
    destruct (findOne_Some _ _ _ _ _ Hf) as [Hj _].
    unfold Mongoose.save. simpl. destruct (decide (i = j)) as [->|Hne].
    - assert (m = l) as -> by congruence.
      exists m'. rewrite list_lookup_insert_eq by eauto using lookup_lt_Some.
      split_and!; try done. congruence.
    - exists l. by rewrite list_lookup_insert_ne by done. }
  destruct r as [now k d|e k| | |k]; simpl; eauto 10.
  - unfold validate.
    destruct (truthy k) as [key|]; [|eauto 10].
    destruct (truthy d) as [dev|]; [|eauto 10].
    destruct (findOne key db) as [[j m]|] eqn:Hf; [|eauto 10].
    destruct (findOne_Some _ _ _ _ _ Hf) as [_ <-].
    destruct (valid m) eqn:Hv; simpl; [|eauto 10].
    case_bool_decide as Hin; simpl.
    { by apply (Hsave j m). }
    case_bool_decide as Hlen; simpl.
    { by apply (Hsave j m). }
    apply (Hsave j m); try done. simpl. rewrite length_app. simpl. lia.
  - unfold generate.
    destruct (truthy e) as [email'|]; [|eauto 10].
    destruct (truthy k) as [key|]; [|eauto 10].
    destruct (findOne key db); [eauto 10|]. simpl.
    exists l. unfold Mongoose.create. by rewrite (lookup_app_l_Some _ _ _ l).
  - unfold licenses_revoke.
    destruct (truthy k) as [key|]; [|eauto 10].
    destruct (findOne key db) as [[j m]|] eqn:Hf; [|eauto 10].
    destruct (findOne_Some _ _ _ _ _ Hf) as [_ <-].
    destruct (valid m) eqn:Hv; simpl; [|eauto 10].
    by apply (Hsave j m).
Qed.

(** X16. part_000 never removes, moves or renames a record, and never
    changes a revoked one: after any sequence of requests the record at
    each position has the key and the email it had, and a record that was
    revoked is exactly as it was.  There is no way back from revocation in
    this edition. *)
Theorem legacy_records_stay rs db i l :
  db !! i = Some l →
  ∃ l', run rs db !! i = Some l' ∧
    licenseKey l' = licenseKey l ∧ email l' = email l ∧
    (valid l = false → l' = l).
Proof.
  revert db l. induction rs as [|r rs IH]; intros db l Hi; [by exists l|].
  destruct (legacy_handle_position r db i l Hi) as (l1 & Hi1 & Hk1 & He1 & Hv1 & _).
  destruct (IH _ _ Hi1) as (l' & Hi' & Hk' & He' & Hv').
  exists l'. simpl. split_and!; try congruence.
  intros Hv. rewrite <- (Hv1 Hv). apply Hv'. by rewrite (Hv1 Hv).
Qed.

Lemma legacy_records_stay_witness :
  let a := mkLicense "KEY1" "a@x.com" false ["dev1"] (Some 5%Z) in
  run [PostValidate 9 (Some "KEY1") (Some "dev1");
       PostGenerate (Some "b@x.com") (Some "KEY1")] [a] !! 0 = Some a.
Proof.
  intros a.
  destruct (legacy_records_stay
              [PostValidate 9 (Some "KEY1") (Some "dev1");
               PostGenerate (Some "b@x.com") (Some "KEY1")] [a] 0 a)
    as (l' & H & _ & _ & Hv); [reflexivity|].
  rewrite (Hv eq_refl) in H. exact H.
Defined.



(** X18. The life of a license in part_000, which has no type test: after
    it is issued, the first validation binds its device and sets
    [lastUsed], a second validation from that device succeeds and only
    moves [lastUsed], and a validation from another device answers 403
    "License revoked: used on multiple devices." and leaves the record
    revoked, its device and [lastUsed] kept. *)
Theorem legacy_license_lifecycle key email' devA devB now1 now2 now3 db :
  key ≠ "" → email' ≠ "" → devA ≠ "" → devB ≠ "" → devA ≠ devB →
  findOne key db = None →
  let out0 := generate (Some email') (Some key) db in
  let out1 := validate now1 (Some key) (Some devA) out0.1 in
  let out2 := validate now2 (Some key) (Some devA) out1.1 in
  let out3 := validate now3 (Some key) (Some devB) out2.1 in
  out0 = (db ++ [mkLicense key email' true [] None], created) ∧
  out1 = (db ++ [mkLicense key email' true [devA] (Some now1)], validated) ∧
  out2 = (db ++ [mkLicense key email' true [devA] (Some now2)], validated) ∧
  out3 = (db ++ [mkLicense key email' false [devA] (Some now2)],
          revoked_multiple_devices).
Proof.
  intros Hkey Hemail HA HB HAB Hnone out0 out1 out2 out3.
  assert (∀ l, licenseKey l = key →
               findOne key (db ++ [l]) = Some (length db, l)) as Hlast.
  { intros l Hl. by apply (findOne_create_new licenseKey key db l). }
  assert (out0 = (db ++ [mkLicense key email' true [] None], created)) as H0.
  { unfold out0, generate. by rewrite !truthy_present, Hnone by done. }
  assert (out1 = (db ++ [mkLicense key email' true [devA] (Some now1)],
                  validated)) as H1.
  { unfold out1, validate. rewrite H0, !truthy_present by done. simpl.
    rewrite Hlast by done. simpl. by rewrite save_last. }
  assert (out2 = (db ++ [mkLicense key email' true [devA] (Some now2)],
                  validated)) as H2.
  { unfold out2, validate. rewrite H1, !truthy_present by done. simpl.
    rewrite Hlast by done. simpl.
    rewrite bool_decide_eq_true_2 by by apply list_elem_of_singleton.
    simpl. by rewrite save_last. }
  split_and!; [done..|].
  unfold out3, validate. rewrite H2, !truthy_present by done. simpl.
  rewrite Hlast by done. simpl.
  rewrite bool_decide_eq_false_2 by by intros ?%list_elem_of_singleton.
  simpl. by rewrite save_last.
Qed.

Lemma legacy_license_lifecycle_witness :
  (validate 3 (Some "KEY1") (Some "dev2")
     (validate 2 (Some "KEY1") (Some "dev1")
        (validate 1 (Some "KEY1") (Some "dev1")
           (generate (Some "a@x.com") (Some "KEY1") []).1).1).1)
  = ([mkLicense "KEY1" "a@x.com" false ["dev1"] (Some 2%Z)],
     revoked_multiple_devices).
Proof.
  destruct (legacy_license_lifecycle "KEY1" "a@x.com" "dev1" "dev2" 1 2 3 [])
    as (_ & _ & _ & H); [done..|exact H].
Defined.

End Part000More.

(** ** Reactivation without [resetDevices] *)

(** X19. A reactivation without [resetDevices] gives the license back to
    the device it was bound to, and to that device only: after it, a
    validation from a bound device that passes the type test succeeds, and
    one from any other device revokes the license again. *)
Theorem reactivate_keeps_binding key db i l query_type now dev :
  key ≠ "" → dev ≠ "" →
  findOne key db = Some (i, l) → deviceId l ≠ [] →
  type_matches query_type l →
  let db1 := (licenses_reactivate (Some key) false db).1 in
  let out := validate now query_type (Some key) (Some dev) db1 in
  (dev ∈ deviceId l →
   out = (save (i, set_lastUsed (Some now) (set_valid true l)) db1, validated)) ∧
  (dev ∉ deviceId l →
   out = (save (i, set_valid false (set_valid true l)) db1,
          revoked_multiple_devices)).
Proof.
  intros Hkey Hdev Hf Hne Ht db1 out.
  destruct (findOne_Some _ _ _ _ _ Hf) as [_ Hk].
  assert (db1 = save (i, set_valid true l) db) as Hdb1.
  { unfold db1, licenses_reactivate. by rewrite truthy_present, Hf. }
  assert (findOne key db1 = Some (i, set_valid true l)) as Hf1.
  { rewrite Hdb1. by apply findOne_save_same with l. }
  split; intros Hin; unfold out.
  - by destruct (validate_bound_branch now query_type key dev db1 i
                   (set_valid true l)) as [-> _].
  - by destruct (validate_revoking_branch now query_type key dev db1 i
                   (set_valid true l)) as [-> _].
Qed.

Lemma reactivate_keeps_binding_witness :
  let a := mkLicense "KEY1" (Some "sender") "a@x.com" false ["dev1"] (Some 5%Z) in
  let db1 := (licenses_reactivate (Some "KEY1") false [a]).1 in
  (validate 9 None (Some "KEY1") (Some "dev1") db1).2 = validated ∧
  (validate 9 None (Some "KEY1") (Some "dev2") db1).2 = revoked_multiple_devices.
Proof.
  intros a db1.
  assert ("KEY1" ≠ "") as Hk by done.
  assert ("dev1" ≠ "") as H1 by done.
  assert ("dev2" ≠ "") as H2 by done.
  assert (deviceId a ≠ []) as Hd by done.
  split.
  - destruct (reactivate_keeps_binding "KEY1" [a] 0 a None 9 "dev1"
                Hk H1 eq_refl Hd eq_refl) as [H _].
    unfold db1. rewrite H; [reflexivity|]. by apply list_elem_of_singleton.
  - destruct (reactivate_keeps_binding "KEY1" [a] 0 a None 9 "dev2"
                Hk H2 eq_refl Hd eq_refl) as [_ H].
    unfold db1. rewrite H; [reflexivity|]. by intros ?%list_elem_of_singleton.
Defined.
